(** * Xilinx 7-series platform of nMigen

    A shallow embedding of [nmigen/vendor/xilinx_7series.py]: the pin-buffer
    lowering ([_get_xdr_buffer] and the [get_*] entry points), the
    clock-domain-crossing synchronizers ([get_ff_sync], [get_async_ff_sync]),
    the toolchain profile selection and the clock-constraint part of the
    constraint-file templates.

    Python objects with identity (signals) carry a unique identifier taken
    from an allocation counter; their mutable attribute dictionaries live in
    a store keyed by that identifier.  Exceptions are an error result. *)

From Stdlib Require Import ZArith String Floats.PrimFloat.
From stdpp Require Import base option list strings gmap pretty functions.

Open Scope string_scope.
Open Scope list_scope.
Open Scope nat_scope.

(** ** Exceptions and the two monads of the embedding *)

Inductive exn :=
| AssertionError
| IndexError
| AttributeError
| UnboundLocalError
| NameError
| TypeError
| NotImplementedError
| ZeroDivisionError.

Inductive Res (A : Type) : Type :=
| Ok (a : A)
| Raise (e : exn).
Arguments Ok {A} a.
Arguments Raise {A} e.

Definition res_bind {A B : Type} (f : A → Res B) (r : Res A) : Res B :=
  match r with
  | Ok a => f a
  | Raise e => Raise e
  end.

#[global] Instance res_mret : MRet Res := @Ok.
#[global] Instance res_mbind : MBind Res := @res_bind.

(** [assert c] is Python's [assert c]. *)
Definition assert (c : bool) : Res unit :=
  if c then Ok tt else Raise AssertionError.

(** Reading an attribute that the object may not have. *)
Definition getattr {A : Type} (field : option A) : Res A :=
  match field with
  | Some a => Ok a
  | None => Raise AttributeError
  end.

(** Reading a local variable that may not have been bound. *)
Definition local {A : Type} (var : option A) : Res A :=
  match var with
  | Some a => Ok a
  | None => Raise UnboundLocalError
  end.

(** [xs[i]] and [xs[-1]] on a Python list. *)
Definition list_getitem {A : Type} (xs : list A) (i : nat) : Res A :=
  match xs !! i with
  | Some x => Ok x
  | None => Raise IndexError
  end.

Definition list_getitem_last {A : Type} (xs : list A) : Res A :=
  match list.last xs with
  | Some x => Ok x
  | None => Raise IndexError
  end.

(** [for x in xs: body], threading the mutated object. *)
Fixpoint for_each {S X : Type} (xs : list X) (body : X → S → Res S) (s : S)
  : Res S :=
  match xs with
  | [] => Ok s
  | x :: xs' =>
      match body x s with
      | Ok s' => for_each xs' body s'
      | Raise e => Raise e
      end
  end.

(** Values attached to attribute keys: a string, or [str(f)] of a float [f]. *)
Inductive attr_value :=
| AttrStr (s : string)
| AttrFloatStr (f : float).

(** The store of signal objects: the allocation counter and, per signal,
    its [attrs] dictionary. *)
Record Heap := {
  next_uid : nat;
  sig_attrs : gmap nat (gmap string attr_value)
}.

Definition M (A : Type) : Type := Heap → Res (A * Heap).

Definition m_ret {A : Type} (a : A) : M A := λ h, Ok (a, h).

Definition m_bind {A B : Type} (f : A → M B) (c : M A) : M B :=
  λ h, match c h with
       | Ok (a, h') => f a h'
       | Raise e => Raise e
       end.

#[global] Instance m_mret : MRet M := @m_ret.
#[global] Instance m_mbind : MBind M := @m_bind.

Definition lift {A : Type} (r : Res A) : M A :=
  λ h, match r with
       | Ok a => Ok (a, h)
       | Raise e => Raise e
       end.

(** The list comprehension [[mk x for x in xs]]. *)
Fixpoint comprehension {X A : Type} (xs : list X) (mk : X → M A) : M (list A) :=
  match xs with
  | [] => mret []
  | x :: xs' =>
      a ← mk x;
      rest ← comprehension xs' mk;
      mret (a :: rest)
  end.

(** ** The hardware description objects the platform uses *)

Record Shape := { width : nat; signed : bool }.

Definition unsigned (w : nat) : Shape := {| width := w; signed := false |}.

Record Signal := {
  sig_uid : nat;
  sig_name : string;
  sig_shape : Shape;
  sig_reset : Z;
  sig_reset_less : bool
}.

Inductive Value :=
| VSig (s : Signal)
| VConst (value : Z) (sh : Shape)
| VNot (v : Value)
| VBit (v : Value) (bit : nat)
| ClockSignal (domain : string)
| ResetSignal (domain : string).

Fixpoint shape (v : Value) : Shape :=
  match v with
  | VSig s => sig_shape s
  | VConst _ sh => sh
  | VNot v' => shape v'
  | VBit _ _ => unsigned 1
  | ClockSignal _ => unsigned 1
  | ResetSignal _ => unsigned 1
  end.

Definition len (v : Value) : nat := width (shape v).

(** [bits_for(n)] and [Const(n)] with the shape inferred from the value. *)
Definition bits_for (n : Z) : nat :=
  if (0 <? n)%Z then Z.to_nat (Z.log2_up (n + 1))
  else S (Z.to_nat (Z.log2_up (- n))).

Definition Const (n : Z) : Value :=
  VConst n {| width := bits_for n; signed := (n <? 0)%Z |}.

(** [v[bit]]: out of range raises [IndexError]. *)
Definition getitem (v : Value) (bit : nat) : Res Value :=
  if (bit <? len v)%nat then Ok (VBit v bit) else Raise IndexError.

(** [Signal(shape, name=..., reset=..., reset_less=..., attrs=...)]. *)
Definition new_Signal (sh : Shape) (name : string) (reset : Z)
    (reset_less : bool) (attrs : gmap string attr_value) : M Signal :=
  λ h, Ok ({| sig_uid := next_uid h; sig_name := name; sig_shape := sh;
              sig_reset := reset; sig_reset_less := reset_less |},
           {| next_uid := S (next_uid h);
              sig_attrs := <[next_uid h := attrs]> (sig_attrs h) |}).

(** [s.attrs]. *)
Definition attrs_of (h : Heap) (s : Signal) : gmap string attr_value :=
  default ∅ (sig_attrs h !! sig_uid s).

(** [s.attrs[key] = v]. *)
Definition set_attr (s : Signal) (key : string) (v : attr_value) : M unit :=
  λ h, Ok (tt, {| next_uid := next_uid h;
                  sig_attrs := <[sig_uid s := <[key := v]> (attrs_of h s)]>
                                 (sig_attrs h) |}).

(** [Signal.like(other, name_suffix=...)] for a signal [other]. *)
Definition Signal_like (other : Signal) (name_suffix : string) : M Signal :=
  λ h, new_Signal (sig_shape other) (sig_name other +:+ name_suffix)
         (sig_reset other) (sig_reset_less other) (attrs_of h other) h.

Inductive param_value :=
| PStr (s : string)
| PInt (n : Z).

(** The keyword arguments of [Instance(type, ...)]: [a_], [p_], [i_], [o_]
    and [io_] prefixed names. *)
Inductive inst_arg :=
| a_ (name : string) (v : string)
| p_ (name : string) (v : param_value)
| i_ (name : string) (v : Value)
| o_ (name : string) (v : Value)
| io_ (name : string) (v : Value).

Record HdlInstance := {
  inst_type : string;
  inst_args : list inst_arg
}.

Inductive Statement :=
| Assign (lhs rhs : Value).

Record ClockDomain := {
  cd_name : string;
  cd_async_reset : bool;
  cd_local : bool
}.

(** [Module()]: submodules in the order they were added (anonymous ones
    have no name), clock domains, and the statements of [m.d.<domain>]. *)
Record HdlModule := {
  submodules : list (option string * HdlInstance);
  domains : list ClockDomain;
  statements : list (string * Statement)
}.

Definition new_Module : HdlModule :=
  {| submodules := []; domains := []; statements := [] |}.

(** [m.submodules += inst]. *)
Definition add_submodule (m : HdlModule) (inst : HdlInstance) : HdlModule :=
  {| submodules := submodules m ++ [(None, inst)];
     domains := domains m; statements := statements m |}.

(** [m.submodules[name] = inst]: a name already taken raises [NameError]. *)
Definition set_submodule (m : HdlModule) (name : string) (inst : HdlInstance)
  : Res HdlModule :=
  if bool_decide (Some name ∈ (submodules m).*1) then Raise NameError
  else Ok {| submodules := submodules m ++ [(Some name, inst)];
             domains := domains m; statements := statements m |}.

(** [m.domains += cd]. *)
Definition add_domain (m : HdlModule) (cd : ClockDomain) : HdlModule :=
  {| submodules := submodules m; domains := domains m ++ [cd];
     statements := statements m |}.

(** [m.d[domain] += lhs.eq(rhs)]. *)
Definition add_stmt (m : HdlModule) (domain : string) (lhs rhs : Value)
  : HdlModule :=
  {| submodules := submodules m; domains := domains m;
     statements := statements m ++ [(domain, Assign lhs rhs)] |}.

(** ** Pin requests *)

Record Pin := {
  pin_name : string;
  pin_dir : string;
  pin_width : nat;
  pin_xdr : nat;
  pin_i : option Signal;
  pin_i0 : option Signal;
  pin_i1 : option Signal;
  pin_o : option Signal;
  pin_o0 : option Signal;
  pin_o1 : option Signal;
  pin_oe : option Signal;
  pin_i_clk : option Signal;
  pin_o_clk : option Signal
}.

(** Python's [needle in hay] on strings. *)
Definition str_in (needle hay : string) : bool :=
  match String.index 0 needle hay with
  | Some _ => true
  | None => false
  end.

(** [pin.dir in ("oe", "io")]. *)
Definition dir_oe_io (dir : string) : bool :=
  bool_decide (dir = "oe") || bool_decide (dir = "io").

(** ** Polarity helpers *)

(** Modelled from the spec: [get_ineg] and [get_oneg] of [nmigen.vendor.util]
    are imported by the platform but are not part of the sources.  They
    "apply inversion directly to/from the external port-facing value": with
    the inversion flag set, a fresh signal shaped like the given one stands
    on the other side of a combinational negation; without it the signal is
    passed through unchanged.  No primitive is instantiated. *)
Definition get_ineg (m : HdlModule) (y : Signal) (invert : bool)
  : M (HdlModule * Value) :=
  if invert then
    a ← Signal_like y "_n";
    mret (add_stmt m "comb" (VSig y) (VNot (VSig a)), VSig a)
  else mret (m, VSig y).

Definition get_oneg (m : HdlModule) (a : Signal) (invert : bool)
  : M (HdlModule * Value) :=
  if invert then
    y ← Signal_like a "_n";
    mret (add_stmt m "comb" (VSig y) (VNot (VSig a)), VSig y)
  else mret (m, VSig a).

(** Modelled from the spec: [_invert_if] of the platform base class, not
    part of the sources: the value negated when the flag is set. *)
Definition _invert_if (invert : bool) (value : Value) : Value :=
  if invert then VNot value else value.

(** ** The XDR buffer *)

Definition FDCE (clk d_bit q_bit : Value) : HdlInstance :=
  {| inst_type := "FDCE";
     inst_args := [a_ "IOB" "TRUE";
                   i_ "C" clk;
                   i_ "CE" (Const 1);
                   i_ "CLR" (Const 0);
                   i_ "D" d_bit;
                   o_ "Q" q_bit] |}.

Definition IDDR (clk d_bit q1_bit q2_bit : Value) : HdlInstance :=
  {| inst_type := "IDDR";
     inst_args := [p_ "DDR_CLK_EDGE" (PStr "SAME_EDGE_PIPELINED");
                   p_ "SRTYPE" (PStr "ASYNC");
                   p_ "INIT_Q1" (PInt 0); p_ "INIT_Q2" (PInt 0);
                   i_ "C" clk;
                   i_ "CE" (Const 1);
                   i_ "S" (Const 0); i_ "R" (Const 0);
                   i_ "D" d_bit;
                   o_ "Q1" q1_bit; o_ "Q2" q2_bit] |}.

Definition ODDR (clk d1_bit d2_bit q_bit : Value) : HdlInstance :=
  {| inst_type := "ODDR";
     inst_args := [p_ "DDR_CLK_EDGE" (PStr "SAME_EDGE");
                   p_ "SRTYPE" (PStr "ASYNC");
                   p_ "INIT" (PInt 0);
                   i_ "C" clk;
                   i_ "CE" (Const 1);
                   i_ "S" (Const 0); i_ "R" (Const 0);
                   i_ "D1" d1_bit; i_ "D2" d2_bit;
                   o_ "Q" q_bit] |}.

(** SDR I/O is performed by packing a flip-flop into the pad IOB. *)
Definition get_dff (clk d q : Value) (m : HdlModule) : Res HdlModule :=
  for_each (seq 0 (len q))
    (λ bit m,
       d_bit ← getitem d bit;
       q_bit ← getitem q bit;
       mret (add_submodule m (FDCE clk d_bit q_bit)))
    m.

Definition get_iddr (clk d q1 q2 : Value) (m : HdlModule) : Res HdlModule :=
  for_each (seq 0 (len q1))
    (λ bit m,
       d_bit ← getitem d bit;
       q1_bit ← getitem q1 bit;
       q2_bit ← getitem q2 bit;
       mret (add_submodule m (IDDR clk d_bit q1_bit q2_bit)))
    m.

Definition get_oddr (clk d1 d2 q : Value) (m : HdlModule) : Res HdlModule :=
  for_each (seq 0 (len q))
    (λ bit m,
       d1_bit ← getitem d1 bit;
       d2_bit ← getitem d2 bit;
       q_bit ← getitem q bit;
       mret (add_submodule m (ODDR clk d1_bit d2_bit q_bit)))
    m.

(** The local variables [pin_i], [pin_i0], [pin_i1] (or their output
    counterparts) after the first two [if] blocks of [_get_xdr_buffer]. *)
Record neg_locals := {
  neg_sdr : option Value;
  neg_ddr0 : option Value;
  neg_ddr1 : option Value
}.

Definition no_locals : neg_locals :=
  {| neg_sdr := None; neg_ddr0 := None; neg_ddr1 := None |}.

(** One of the blocks [if "i" in pin.dir: ...] / [if "o" in pin.dir: ...]
    that bind the polarity-corrected pin signals. *)
Definition bind_neg (get_neg : HdlModule → Signal → bool → M (HdlModule * Value))
    (present : bool) (invert : option bool) (xdr : nat)
    (sdr ddr0 ddr1 : option Signal) (m : HdlModule)
  : M (HdlModule * neg_locals) :=
  if present then
    _ ← lift (assert (bool_decide (is_Some invert)));
    let inv := default false invert in
    if (xdr <? 2)%nat then
      s ← lift (getattr sdr);
      '(m, v) ← get_neg m s inv;
      mret (m, {| neg_sdr := Some v; neg_ddr0 := None; neg_ddr1 := None |})
    else if (xdr =? 2)%nat then
      s0 ← lift (getattr ddr0);
      '(m, v0) ← get_neg m s0 inv;
      s1 ← lift (getattr ddr1);
      '(m, v1) ← get_neg m s1 inv;
      mret (m, {| neg_sdr := None; neg_ddr0 := Some v0; neg_ddr1 := Some v1 |})
    else mret (m, no_locals)
  else mret (m, no_locals).

(** [Signal(w, name="{}<suffix>".format(pin.name))] when [present]. *)
Definition xdr_signal (present : bool) (w : nat) (pin : Pin) (suffix : string)
  : M (option Value) :=
  if present then
    s ← new_Signal (unsigned w) (pin_name pin +:+ suffix) 0 false ∅;
    mret (Some (VSig s))
  else mret None.

(** Runs [f] on the module when [present], as the guarded calls of the
    [xdr] branches do. *)
Definition when (present : bool) (f : HdlModule → Res HdlModule)
    (m : HdlModule) : Res HdlModule :=
  if present then f m else Ok m.

Definition _get_xdr_buffer (m : HdlModule) (pin : Pin)
    (i_invert o_invert : option bool)
  : M (HdlModule * (option Value * option Value * option Value)) :=
  let has_i := str_in "i" (pin_dir pin) in
  let has_o := str_in "o" (pin_dir pin) in
  let has_t := dir_oe_io (pin_dir pin) in
  '(m, pi) ← bind_neg get_ineg has_i i_invert (pin_xdr pin)
                (pin_i pin) (pin_i0 pin) (pin_i1 pin) m;
  '(m, po) ← bind_neg get_oneg has_o o_invert (pin_xdr pin)
                (pin_o pin) (pin_o0 pin) (pin_o1 pin) m;
  i ← xdr_signal has_i (pin_width pin) pin "_xdr_i";
  o ← xdr_signal has_o (pin_width pin) pin "_xdr_o";
  t ← xdr_signal has_t 1 pin "_xdr_t";
  if (pin_xdr pin =? 0)%nat then
    i ← lift (if has_i then res_bind (λ v, Ok (Some v)) (local (neg_sdr pi))
              else Ok i);
    o ← lift (if has_o then res_bind (λ v, Ok (Some v)) (local (neg_sdr po))
              else Ok o);
    t ← lift (if has_t
              then res_bind (λ oe, Ok (Some (VNot (VSig oe)))) (getattr (pin_oe pin))
              else Ok t);
    mret (m, (i, o, t))
  else if (pin_xdr pin =? 1)%nat then
    m ← lift (when has_i (λ m,
           clk ← getattr (pin_i_clk pin); d ← local i; q ← local (neg_sdr pi);
           get_dff (VSig clk) d q m) m);
    m ← lift (when has_o (λ m,
           clk ← getattr (pin_o_clk pin); d ← local (neg_sdr po); q ← local o;
           get_dff (VSig clk) d q m) m);
    m ← lift (when has_t (λ m,
           clk ← getattr (pin_o_clk pin); oe ← getattr (pin_oe pin); q ← local t;
           get_dff (VSig clk) (VNot (VSig oe)) q m) m);
    mret (m, (i, o, t))
  else if (pin_xdr pin =? 2)%nat then
    m ← lift (when has_i (λ m,
           clk ← getattr (pin_i_clk pin); d ← local i;
           q1 ← local (neg_ddr0 pi); q2 ← local (neg_ddr1 pi);
           get_iddr (VSig clk) d q1 q2 m) m);
    m ← lift (when has_o (λ m,
           clk ← getattr (pin_o_clk pin);
           d1 ← local (neg_ddr0 po); d2 ← local (neg_ddr1 po); q ← local o;
           get_oddr (VSig clk) d1 d2 q m) m);
    m ← lift (when has_t (λ m,
           clk ← getattr (pin_o_clk pin); oe ← getattr (pin_oe pin); q ← local t;
           get_dff (VSig clk) (VNot (VSig oe)) q m) m);
    mret (m, (i, o, t))
  else lift (Raise AssertionError).

(** ** Well-formed pin requests *)

#[global] Instance Shape_eq_dec : EqDecision Shape.
Proof. solve_decision. Defined.

(** A record field that the layout has exactly when [present], of the given
    width, allocated before the current state of the store. *)
Definition field_ok (h : Heap) (present : bool) (w : nat)
    (field : option Signal) : bool :=
  match field with
  | Some s =>
      present && bool_decide (sig_shape s = unsigned w)
      && (sig_uid s <? next_uid h)%nat
  | None => negb present
  end.

(** The layout of a pin record (PinRequest of the data model): the data
    fields of each requested direction are [pin.width] bits wide ([i]/[o] at
    levels 0 and 1, the phase pairs [i0],[i1]/[o0],[o1] at level 2), clocks
    exist from level 1 on, and [oe] is a single bit that exists for the
    tristate and inout directions. *)
Definition pin_wf (h : Heap) (pin : Pin) : bool :=
  let dir := pin_dir pin in
  let xdr := pin_xdr pin in
  let w := pin_width pin in
  let has_i := str_in "i" dir in
  let has_o := str_in "o" dir in
  bool_decide (dir ∈ ["i"; "o"; "oe"; "io"])
  && field_ok h (has_i && (0 <? xdr)%nat) 1 (pin_i_clk pin)
  && field_ok h (has_i && (xdr <? 2)%nat) w (pin_i pin)
  && field_ok h (has_i && (xdr =? 2)%nat) w (pin_i0 pin)
  && field_ok h (has_i && (xdr =? 2)%nat) w (pin_i1 pin)
  && field_ok h (has_o && (0 <? xdr)%nat) 1 (pin_o_clk pin)
  && field_ok h (has_o && (xdr <? 2)%nat) w (pin_o pin)
  && field_ok h (has_o && (xdr =? 2)%nat) w (pin_o0 pin)
  && field_ok h (has_o && (xdr =? 2)%nat) w (pin_o1 pin)
  && field_ok h (dir_oe_io dir) 1 (pin_oe pin).

(** A field of a pin record under construction. *)
Definition pin_field (present : bool) (w : nat) (name field : string)
  : M (option Signal) :=
  if present then
    s ← new_Signal (unsigned w) (name +:+ "__" +:+ field) 0 false ∅;
    mret (Some s)
  else mret None.

(** [Pin(width, dir, xdr=xdr, name=name)] for levels 0 to 2: allocates the
    fields of the layout above. *)
Definition new_Pin (w : nat) (dir : string) (xdr : nat) (name : string)
  : M Pin :=
  let has_i := str_in "i" dir in
  let has_o := str_in "o" dir in
  i_clk ← pin_field (has_i && (0 <? xdr)%nat) 1 name "i_clk";
  i ← pin_field (has_i && (xdr <? 2)%nat) w name "i";
  i0 ← pin_field (has_i && (xdr =? 2)%nat) w name "i0";
  i1 ← pin_field (has_i && (xdr =? 2)%nat) w name "i1";
  o_clk ← pin_field (has_o && (0 <? xdr)%nat) 1 name "o_clk";
  o ← pin_field (has_o && (xdr <? 2)%nat) w name "o";
  o0 ← pin_field (has_o && (xdr =? 2)%nat) w name "o0";
  o1 ← pin_field (has_o && (xdr =? 2)%nat) w name "o1";
  oe ← pin_field (dir_oe_io dir) 1 name "oe";
  mret {| pin_name := name; pin_dir := dir; pin_width := w; pin_xdr := xdr;
          pin_i := i; pin_i0 := i0; pin_i1 := i1;
          pin_o := o; pin_o0 := o0; pin_o1 := o1;
          pin_oe := oe; pin_i_clk := i_clk; pin_o_clk := o_clk |}.

Definition empty_heap : Heap := {| next_uid := 0; sig_attrs := ∅ |}.

(** The number of submodules of [m] that instantiate the primitive [ty]. *)
Definition count_type (ty : string) (m : HdlModule) : nat :=
  length (filter (λ sub, inst_type sub.2 = ty) (submodules m)).

(** [m] with the anonymous submodules [insts] appended. *)
Definition add_submodules (m : HdlModule) (insts : list HdlInstance)
  : HdlModule :=
  {| submodules := submodules m ++ map (pair None) insts;
     domains := domains m; statements := statements m |}.


(** ** Pin-facing output buffer *)

(** A single-ended port: a record with the one field [io]. *)
Record Port := { port_io : Signal }.

(** Modelled from the spec: [_check_feature] of the platform base class, not
    part of the sources.  Each entry point "first validates that the
    requested electrical flavor, serialization level, and target attribute
    set are all supported"; the entry points here pass
    [valid_xdrs=(0, 1, 2)] and [valid_attrs=True], which leaves the
    serialization level to check. *)
Definition _check_feature (pin : Pin) (valid_xdrs : list nat) : Res unit :=
  if bool_decide (pin_xdr pin ∈ valid_xdrs) then Ok tt
  else Raise NotImplementedError.

Definition OBUF (i_bit o_bit : Value) : HdlInstance :=
  {| inst_type := "OBUF"; inst_args := [i_ "I" i_bit; o_ "O" o_bit] |}.

(** Subscripting the [o] returned by the buffer: [None[bit]] is a
    [TypeError]. *)
Definition subscript (v : option Value) (bit : nat) : Res Value :=
  match v with
  | Some v' => getitem v' bit
  | None => Raise TypeError
  end.

(** The platform object: the state of the base class and the toolchain
    selected at construction. *)
Record Xilinx7SeriesPlatform (Base : Type) := {
  base : Base;
  toolchain : string
}.
Arguments base {Base} _.
Arguments toolchain {Base} _.

(** [port.eq(v)] on the one-field record assigns its field [io]; neither
    [~None] nor [port.eq(None)] is defined, a [TypeError]. *)
Definition get_output {Base : Type} (self : Xilinx7SeriesPlatform Base)
    (pin : Pin) (port : Port) (invert : bool) : M HdlModule :=
  _ ← lift (_check_feature pin [0; 1; 2]);
  let m := new_Module in
  '(m, (i, o, t)) ← _get_xdr_buffer m pin None (Some invert);
  if bool_decide (toolchain self = "Vivado") then
    lift (for_each (seq 0 (pin_width pin))
            (λ bit m,
               o_bit ← subscript o bit;
               io_bit ← getitem (VSig (port_io port)) bit;
               set_submodule m (pin_name pin +:+ "_" +:+ pretty bit)
                 (OBUF o_bit io_bit))
            m)
  else if bool_decide (toolchain self = "Symbiflow") then
    o ← lift (match o with Some v => Ok v | None => Raise TypeError end);
    mret (add_stmt m "comb" (VSig (port_io port)) (_invert_if invert o))
  else lift (Raise AssertionError).

(** ** Synchronizers *)

Record FFSynchronizer := {
  ff_i : Value;
  ff_o : Signal;
  ff_reset : Z;
  ff_reset_less : bool;
  ff_stages : nat;
  ff_max_input_delay : option float;
  ff_o_domain : string
}.

Record AsyncFFSynchronizer := {
  aff_i : Value;
  aff_o : Signal;
  aff_stages : nat;
  aff_max_input_delay : option float;
  aff_edge : string;
  aff_o_domain : string
}.

(** The timing exception put on [flops[0]]: a false path when no maximum
    input delay is given, else [str(max_input_delay * 1e9)]. *)
Definition set_timing_exception (flops : list Signal)
    (max_input_delay : option float) : M unit :=
  match max_input_delay with
  | None =>
      flop0 ← lift (list_getitem flops 0);
      set_attr flop0 "nmigen.vivado.false_path" (AttrStr "TRUE")
  | Some delay =>
      let value := AttrFloatStr (delay * 1e9)%float in
      flop0 ← lift (list_getitem flops 0);
      set_attr flop0 "nmigen.vivado.max_delay" value
  end.

(** [for i, o in zip((first, *flops), flops): m.d[domain] += o.eq(i)]. *)
Definition chain (domain : string) (first : Value) (flops : list Signal)
    (m : HdlModule) : HdlModule :=
  foldl (λ m io, add_stmt m domain (VSig io.2) io.1) m
    (zip (first :: (VSig <$> flops)) flops).

Definition get_ff_sync (ff_sync : FFSynchronizer) : M HdlModule :=
  let m := new_Module in
  flops ← comprehension (seq 0 (ff_stages ff_sync))
             (λ index,
                new_Signal (shape (ff_i ff_sync)) ("stage" +:+ pretty index)
                  (ff_reset ff_sync) (ff_reset_less ff_sync)
                  {[ "ASYNC_REG" := AttrStr "TRUE" ]});
  _ ← set_timing_exception flops (ff_max_input_delay ff_sync);
  let m := chain (ff_o_domain ff_sync) (ff_i ff_sync) flops m in
  last ← lift (list_getitem_last flops);
  mret (add_stmt m "comb" (VSig (ff_o ff_sync)) (VSig last)).

Definition get_async_ff_sync (async_ff_sync : AsyncFFSynchronizer)
  : M HdlModule :=
  let m := new_Module in
  let m := add_domain m {| cd_name := "async_ff"; cd_async_reset := true;
                           cd_local := true |} in
  flops ← comprehension (seq 0 (aff_stages async_ff_sync))
             (λ index,
                new_Signal (unsigned 1) ("stage" +:+ pretty index) 1 false
                  {[ "ASYNC_REG" := AttrStr "TRUE" ]});
  _ ← set_timing_exception flops (aff_max_input_delay async_ff_sync);
  let m := chain "async_ff" (Const 0) flops m in
  let m :=
    if bool_decide (aff_edge async_ff_sync = "pos") then
      add_stmt m "comb" (ResetSignal "async_ff") (aff_i async_ff_sync)
    else
      add_stmt m "comb" (ResetSignal "async_ff") (VNot (aff_i async_ff_sync)) in
  last ← lift (list_getitem_last flops);
  let m := add_stmt m "comb" (ClockSignal "async_ff")
             (ClockSignal (aff_o_domain async_ff_sync)) in
  mret (add_stmt m "comb" (VSig (aff_o async_ff_sync)) (VSig last)).

(** ** Toolchain profiles *)

(** The words of a command template: literal text (with the [{{name}}]
    placeholder kept as it is written), [{{verbose(...)}}],
    [{{get_override(...)|options}}], the loop over
    [platform.iter_extra_files(...)], and the Symbiflow part lookup
    [platform._symbiflow_part_map.get(platform._part, platform._part)]
    after an option. *)
Inductive cmd_word :=
| Lit (text : string)
| Verbose (flag : string)
| OverrideOptions (override : string)
| ExtraFiles (option_ : string) (extensions : list string)
| PartOption (option_ : string).

Record command_template := {
  invoke_tool : string;
  cmd_words : list cmd_word
}.

(** The file templates of the class, named by what they emit.  Only the
    clock-constraint loops of the bodies are interpreted, see
    [render_clock_lines]. *)
Inductive file_template :=
| inherited (body : string)
| vivado_build_sh
| emit_verilog
| emit_debug_verilog
| vivado_tcl
| vivado_xdc
| symbiflow_pcf
| symbiflow_xdc
| symbiflow_sdc.

Definition _vivado_required_tools : list string := ["vivado"].

Definition _vivado_command_templates : list command_template :=
  [ {| invoke_tool := "vivado";
       cmd_words := [Verbose "-verbose";
                     OverrideOptions "vivado_opts";
                     Lit "-mode batch";
                     Lit "-log {{name}}.log";
                     Lit "-source {{name}}.tcl"] |} ].

Definition _symbiflow_required_tools : list string :=
  ["synth"; "pack"; "place"; "route"; "write_fasm"; "write_bitstream"].

Definition _symbiflow_command_templates : list command_template :=
  [ {| invoke_tool := "synth";
       cmd_words := [Lit "-t {{name}}";
                     ExtraFiles "-v" [".v"; ".sv"; ".vhd"; ".vhdl"];
                     Lit "{{name}}.v";
                     PartOption "-p";
                     Lit "-x {{name}}.xdc"] |};
    {| invoke_tool := "pack";
       cmd_words := [Lit "-e {{name}}.eblif";
                     PartOption "-P";
                     Lit "-s {{name}}.sdc"] |};
    {| invoke_tool := "place";
       cmd_words := [Lit "-e {{name}}.eblif";
                     Lit "-p {{name}}.pcf";
                     Lit "-n {{name}}.net";
                     PartOption "-P";
                     Lit "-s {{name}}.sdc"] |};
    {| invoke_tool := "route";
       cmd_words := [Lit "-e {{name}}.eblif";
                     PartOption "-P";
                     Lit "-s {{name}}.sdc"] |};
    {| invoke_tool := "write_fasm";
       cmd_words := [Lit "-e {{name}}.eblif";
                     PartOption "-P"] |};
    {| invoke_tool := "write_bitstream";
       cmd_words := [Lit "-f {{name}}.fasm";
                     PartOption "-p";
                     Lit "-b {{name}}.bit"] |} ].

Section Platform.

(** The platform base class [TemplatedPlatform] is not part of the
    sources: its state, its constructor, its clock-constraint registry
    and its [build_script_templates] are parameters. *)
Variable Base : Type.
Variable base_init : Base.
Variable super_add_clock_constraint : Base → Signal → float → Res Base.
Variable build_script_templates : gmap string file_template.

(** [{**TemplatedPlatform.build_script_templates, key: body, ...}]: the
    keys written after the unpacking replace inherited ones. *)
Definition _vivado_file_templates : gmap string file_template :=
  <["{{name}}.xdc" := vivado_xdc]>
    (<["{{name}}.tcl" := vivado_tcl]>
       (<["{{name}}.debug.v" := emit_debug_verilog]>
          (<["{{name}}.v" := emit_verilog]>
             (<["build_{{name}}.sh" := vivado_build_sh]>
                build_script_templates)))).

Definition _symbiflow_file_templates : gmap string file_template :=
  <["{{name}}.sdc" := symbiflow_sdc]>
    (<["{{name}}.xdc" := symbiflow_xdc]>
       (<["{{name}}.pcf" := symbiflow_pcf]>
          (<["{{name}}.debug.v" := emit_debug_verilog]>
             (<["{{name}}.v" := emit_verilog]>
                build_script_templates)))).

Definition __init__ (toolchain : string) : Res (Xilinx7SeriesPlatform Base) :=
  let b := base_init in
  _ ← assert (bool_decide (toolchain ∈ ["Vivado"; "Symbiflow"]));
  mret {| base := b; toolchain := toolchain |}.

Definition required_tools (self : Xilinx7SeriesPlatform Base)
  : Res (list string) :=
  if bool_decide (toolchain self = "Vivado") then
    Ok _vivado_required_tools
  else if bool_decide (toolchain self = "Symbiflow") then
    Ok _symbiflow_required_tools
  else Raise AssertionError.

Definition file_templates (self : Xilinx7SeriesPlatform Base)
  : Res (gmap string file_template) :=
  if bool_decide (toolchain self = "Vivado") then
    Ok _vivado_file_templates
  else if bool_decide (toolchain self = "Symbiflow") then
    Ok _symbiflow_file_templates
  else Raise AssertionError.

Definition command_templates (self : Xilinx7SeriesPlatform Base)
  : Res (list command_template) :=
  if bool_decide (toolchain self = "Vivado") then
    Ok _vivado_command_templates
  else if bool_decide (toolchain self = "Symbiflow") then
    Ok _symbiflow_command_templates
  else Raise AssertionError.

Definition add_clock_constraint (self : Xilinx7SeriesPlatform Base)
    (clock : Signal) (frequency : float) : M (Xilinx7SeriesPlatform Base) :=
  b ← lift (super_add_clock_constraint (base self) clock frequency);
  _ ← set_attr clock "keep" (AttrStr "TRUE");
  mret {| base := b; toolchain := toolchain self |}.

End Platform.

Arguments __init__ {Base} base_init toolchain.
Arguments required_tools {Base} self.
Arguments file_templates {Base} build_script_templates self.
Arguments command_templates {Base} self.
Arguments add_clock_constraint {Base} super_add_clock_constraint self clock frequency.

(** Modelled from the spec: the clock-constraint registry of the base
    platform, not part of the sources, kept as the list of (signal,
    frequency) facts in registration order; "facts are additive". *)
Definition registry_add (clocks : list (Signal * float)) (clock : Signal)
    (frequency : float) : Res (list (Signal * float)) :=
  Ok (clocks ++ [(clock, frequency)]).

(** ** Clock constraints in the rendered artifacts *)

(** What a [create_clock] line is applied to: [[get_ports <port name>]],
    [[get_nets <net hierarchy>]], or the bare net name. *)
Inductive clock_target :=
| get_ports (port_name : string)
| get_nets (net_signal : Signal)
| net_name (name : string).

(** A rendered [create_clock] line: its [-name] (if any), its [-period]
    and its target. *)
Record create_clock := {
  cc_name : option string;
  cc_period : float;
  cc_target : clock_target
}.

(** [{{1000000000/frequency}}], with the frequency held as a binary64
    number: the division of Python raises [ZeroDivisionError] when the
    divisor is zero, of either sign, and is the IEEE 754 division
    otherwise. *)
Definition period (frequency : float) : Res float :=
  if (frequency =? 0)%float then Raise ZeroDivisionError
  else Ok (1000000000 / frequency)%float.

(** A fact yielded by [platform.iter_clock_constraints()]:
    [(net_signal, port_signal, frequency)], with [port_signal] possibly
    [None]. *)
Definition clock_fact : Type := Signal * option Signal * float.

(** [{% for ... in platform.iter_clock_constraints() %} body {% endfor %}]:
    what each round renders is appended to the output, in the order of the
    facts; an exception of an expression ends the rendering. *)
Definition for_clock_constraints (constraints : list clock_fact)
    (body : clock_fact → Res (list create_clock)) : Res (list create_clock) :=
  for_each constraints
    (λ fact out, lines ← body fact; mret (out ++ lines)) [].

(** The body of the clock loop of the Vivado [{{name}}.xdc] template. *)
Definition vivado_create_clock (fact : clock_fact) : Res (list create_clock) :=
  let '(net_signal, port_signal, frequency) := fact in
  match port_signal with
  | Some port =>
      p ← period frequency;
      mret [ {| cc_name := Some (sig_name port);
                cc_period := p;
                cc_target := get_ports (sig_name port) |} ]
  | None =>
      p ← period frequency;
      mret [ {| cc_name := Some (sig_name net_signal);
                cc_period := p;
                cc_target := get_nets net_signal |} ]
  end.

Definition vivado_xdc_clocks (constraints : list clock_fact)
  : Res (list create_clock) :=
  for_clock_constraints constraints vivado_create_clock.

(** The body of the clock loop of the Symbiflow [{{name}}.sdc] template:
    the period is computed inside [{% if port_signal is none %}] only. *)
Definition symbiflow_create_clock (fact : clock_fact)
  : Res (list create_clock) :=
  let '(net_signal, port_signal, frequency) := fact in
  match port_signal with
  | None =>
      p ← period frequency;
      mret [ {| cc_name := None;
                cc_period := p;
                cc_target := net_name (sig_name net_signal) |} ]
  | Some _ => mret []
  end.

Definition symbiflow_sdc_clocks (constraints : list clock_fact)
  : Res (list create_clock) :=
  for_clock_constraints constraints symbiflow_create_clock.

(** The [create_clock] lines a template renders; the other templates
    have no such line. *)
Definition render_clock_lines (t : file_template)
    (constraints : list clock_fact) : Res (list create_clock) :=
  match t with
  | vivado_xdc => vivado_xdc_clocks constraints
  | symbiflow_sdc => symbiflow_sdc_clocks constraints
  | _ => Ok []
  end.

(** Modelled from the spec: the base platform, not part of the sources,
    renders every file template of the active profile into the artifact
    of that name; an exception raised by a template ends the build. *)
Definition render_clocks {Base : Type}
    (build_script_templates : gmap string file_template)
    (self : Xilinx7SeriesPlatform Base) (constraints : list clock_fact)
  : Res (gmap string (list create_clock)) :=
  match file_templates build_script_templates self with
  | Ok templates =>
      for_each (map_to_list templates)
        (λ '(name, t) artifacts,
           lines ← render_clock_lines t constraints;
           mret (<[name := lines]> artifacts)) ∅
  | Raise e => Raise e
  end.

(** ** Values, combinational statements and clocked statements *)

(** The integer a shape holds for [z]: the low [width] bits, read in two's
    complement when the shape is signed. *)
Definition wrap (sh : Shape) (z : Z) : Z :=
  let modulus := (2 ^ Z.of_nat (width sh))%Z in
  if signed sh then ((z + modulus / 2) mod modulus - modulus / 2)%Z
  else (z mod modulus)%Z.

(** The value of every signal (by identifier) and of the clock and reset
    of every domain. *)
Record Env := {
  sig_val : nat → Z;
  clk_val : string → Z;
  rst_val : string → Z
}.

Fixpoint eval (env : Env) (v : Value) : Z :=
  match v with
  | VSig s => sig_val env (sig_uid s)
  | VConst z sh => wrap sh z
  | VNot v' => wrap (shape v') (Z.lnot (eval env v'))
  | VBit v' bit => Z.b2z (Z.testbit (eval env v') (Z.of_nat bit))
  | ClockSignal domain => clk_val env domain
  | ResetSignal domain => rst_val env domain
  end.

(** Every statement of [m.d.comb] holds in [env]: the left-hand side has
    the value of the right-hand side, truncated to its shape. *)
Definition comb_holds (env : Env) (m : HdlModule) : bool :=
  forallb (λ st,
     match st with
     | (domain, Assign lhs rhs) =>
         if bool_decide (domain = "comb")
         then (eval env lhs =? wrap (shape lhs) (eval env rhs))%Z
         else true
     end) (statements m).

Fixpoint find_input (name : string) (args : list inst_arg) : option Value :=
  match args with
  | [] => None
  | i_ n v :: rest =>
      if bool_decide (n = name) then Some v else find_input name rest
  | _ :: rest => find_input name rest
  end.

Fixpoint find_output (name : string) (args : list inst_arg) : option Value :=
  match args with
  | [] => None
  | o_ n v :: rest =>
      if bool_decide (n = name) then Some v else find_output name rest
  | _ :: rest => find_output name rest
  end.

(** The vendor's [OBUF] primitive is an output buffer: it drives its port
    [O] with the value of its port [I].  Every [OBUF] of [m] does so in
    [env]. *)
Definition OBUF_holds (env : Env) (m : HdlModule) : bool :=
  forallb (λ sub,
     let inst := sub.2 in
     if bool_decide (inst_type inst = "OBUF") then
       match find_input "I" (inst_args inst),
             find_output "O" (inst_args inst) with
       | Some a, Some y => (eval env y =? eval env a)%Z
       | _, _ => true
       end
     else true) (submodules m).

(** The assignments of [m.d.<domain>] to signals, in program order. *)
Definition clocked (domain : string) (m : HdlModule) : list (Signal * Value) :=
  flat_map (λ st,
     match st with
     | (d, Assign (VSig s) rhs) =>
         if bool_decide (d = domain) then [(s, rhs)] else []
     | _ => []
     end) (statements m).

Definition with_sig_val (env : Env) (vals : nat → Z) : Env :=
  {| sig_val := vals; clk_val := clk_val env; rst_val := rst_val env |}.

(** An active clock edge of [domain] with its reset deasserted: every
    signal assigned in the domain takes the value its right-hand side had
    before the edge (a later assignment to the same signal wins). *)
Definition tick (domain : string) (m : HdlModule) (env : Env) : Env :=
  with_sig_val env
    (foldl (λ vals a,
              <[sig_uid a.1 := wrap (sig_shape a.1) (eval env a.2)]> vals)
           (sig_val env) (clocked domain m)).

(** The reset of [domain] asserted: every signal assigned in the domain
    that is not [reset_less] holds its reset value. *)
Definition reset_state (domain : string) (m : HdlModule) (env : Env) : Env :=
  with_sig_val env
    (foldl (λ vals a,
              if sig_reset_less a.1 then vals
              else <[sig_uid a.1 := wrap (sig_shape a.1) (sig_reset a.1)]> vals)
           (sig_val env) (clocked domain m)).

(** ** Example inputs *)

(** A pin request built by [Pin(w, dir, xdr=xdr, name="pin")] in the empty
    store, with the store after its allocation. *)
Definition example_Pin (w : nat) (dir : string) (xdr : nat) : Pin * Heap :=
  match new_Pin w dir xdr "pin" empty_heap with
  | Ok r => r
  | Raise _ =>
      ({| pin_name := "pin"; pin_dir := dir; pin_width := w; pin_xdr := xdr;
          pin_i := None; pin_i0 := None; pin_i1 := None;
          pin_o := None; pin_o0 := None; pin_o1 := None;
          pin_oe := None; pin_i_clk := None; pin_o_clk := None |},
       empty_heap)
  end.

(** ** Which primitive drives a value *)

#[global] Instance Signal_eq_dec : EqDecision Signal.
Proof. solve_decision. Defined.

#[global] Instance Value_eq_dec : EqDecision Value.
Proof. solve_decision. Defined.

(** [inst] has an output port bound to [v] or to a bit of [v]. *)
Definition drives (v : Value) (inst : HdlInstance) : bool :=
  existsb (λ arg,
     match arg with
     | o_ _ (VBit v' _) => bool_decide (v' = v)
     | o_ _ v' => bool_decide (v' = v)
     | _ => false
     end) (inst_args inst).

(** The identifier of a signal value. *)
Definition uid_of (v : Value) : nat :=
  match v with
  | VSig s => sig_uid s
  | _ => 0
  end.

(** A two-bit port allocated after [example_Pin 2 "o" 0], and platforms of
    the two profiles over a base class without state. *)
Definition example_Port : Port :=
  {| port_io := {| sig_uid := 1; sig_name := "port__io";
                   sig_shape := unsigned 2; sig_reset := 0;
                   sig_reset_less := false |} |}.

Definition example_heap : Heap :=
  {| next_uid := 2; sig_attrs := (example_Pin 2 "o" 0).2.(sig_attrs) |}.

Definition vivado_platform : Xilinx7SeriesPlatform unit :=
  {| base := tt; toolchain := "Vivado" |}.

Definition symbiflow_platform : Xilinx7SeriesPlatform unit :=
  {| base := tt; toolchain := "Symbiflow" |}.

(** The signal that [Signal(sh, name="stage{index}", reset=..., ...)]
    makes when the allocation counter stands at [uid]. *)
Definition stage_signal (sh : Shape) (reset : Z) (reset_less : bool)
    (uid index : nat) : Signal :=
  {| sig_uid := uid; sig_name := "stage" +:+ pretty index; sig_shape := sh;
     sig_reset := reset; sig_reset_less := reset_less |}.

(** The statements [o.eq(i)] of a chain, in order. *)
Definition chain_stmts (domain : string) (first : Value) (flops : list Signal)
  : list (string * Statement) :=
  (λ io, (domain, Assign (VSig io.2) io.1))
    <$> zip (first :: (VSig <$> flops)) flops.

(** The stage signals a synchronizer allocates when the counter stands at
    [uid]. *)
Definition stage_signals (sh : Shape) (reset : Z) (reset_less : bool)
    (uid stages : nat) : list Signal :=
  (λ k, stage_signal sh reset reset_less (uid + k) k) <$> seq 0 stages.

(** Synchronizer requests for the examples: source and destination signals
    allocated before the store [sync_heap]. *)
Definition sync_heap : Heap := {| next_uid := 2; sig_attrs := ∅ |}.

Definition sync_i : Signal :=
  {| sig_uid := 0; sig_name := "i"; sig_shape := unsigned 1; sig_reset := 0;
     sig_reset_less := false |}.

Definition sync_o : Signal :=
  {| sig_uid := 1; sig_name := "o"; sig_shape := unsigned 1; sig_reset := 0;
     sig_reset_less := false |}.

Definition example_FFSynchronizer : FFSynchronizer :=
  {| ff_i := VSig sync_i; ff_o := sync_o; ff_reset := 0;
     ff_reset_less := false; ff_stages := 3;
     ff_max_input_delay := Some 0.5%float; ff_o_domain := "sync" |}.

Definition example_AsyncFFSynchronizer : AsyncFFSynchronizer :=
  {| aff_i := VSig sync_i; aff_o := sync_o; aff_stages := 3;
     aff_max_input_delay := None; aff_edge := "neg"; aff_o_domain := "sync" |}.

(** The three combinational statements at the end of
    [get_async_ff_sync]. *)
Definition async_reset_source (async_ff_sync : AsyncFFSynchronizer) : Value :=
  if bool_decide (aff_edge async_ff_sync = "pos") then aff_i async_ff_sync
  else VNot (aff_i async_ff_sync).

(** The statement [st] assigns to [lhs]. *)
Definition assigns (lhs : Value) (st : string * Statement) : bool :=
  match st with
  | (_, Assign l _) => bool_decide (l = lhs)
  end.

(** The (signal, source) pairs of a chain: stage 0 takes [first], stage
    k+1 takes stage k. *)
Definition chain_pairs (first : Value) (flops : list Signal)
  : list (Signal * Value) :=
  zip flops (first :: (VSig <$> flops)).

(** A clock net and the port it comes from, for the examples. *)
Definition clk_net : Signal :=
  {| sig_uid := 0; sig_name := "clk100_0__i"; sig_shape := unsigned 1;
     sig_reset := 0; sig_reset_less := false |}.

Definition clk_port : Signal :=
  {| sig_uid := 1; sig_name := "clk100_0__io"; sig_shape := unsigned 1;
     sig_reset := 0; sig_reset_less := false |}.

(** ** The other pin-facing entry points *)

(** A differential port: a record with the fields [p] and [n]. *)
Record DiffPort := { port_p : Signal; port_n : Signal }.

Definition IBUF (i_bit o_bit : Value) : HdlInstance :=
  {| inst_type := "IBUF"; inst_args := [i_ "I" i_bit; o_ "O" o_bit] |}.

Definition OBUFT (t i_bit o_bit : Value) : HdlInstance :=
  {| inst_type := "OBUFT";
     inst_args := [i_ "T" t; i_ "I" i_bit; o_ "O" o_bit] |}.

Definition IOBUF (t i_bit o_bit io_bit : Value) : HdlInstance :=
  {| inst_type := "IOBUF";
     inst_args := [i_ "T" t; i_ "I" i_bit; o_ "O" o_bit; io_ "IO" io_bit] |}.

Definition IBUFDS (i_bit ib_bit o_bit : Value) : HdlInstance :=
  {| inst_type := "IBUFDS";
     inst_args := [i_ "I" i_bit; i_ "IB" ib_bit; o_ "O" o_bit] |}.

Definition OBUFDS (i_bit o_bit ob_bit : Value) : HdlInstance :=
  {| inst_type := "OBUFDS";
     inst_args := [i_ "I" i_bit; o_ "O" o_bit; o_ "OB" ob_bit] |}.

Definition OBUFTDS (t i_bit o_bit ob_bit : Value) : HdlInstance :=
  {| inst_type := "OBUFTDS";
     inst_args := [i_ "T" t; i_ "I" i_bit; o_ "O" o_bit; o_ "OB" ob_bit] |}.

Definition IOBUFDS (t i_bit o_bit io_bit iob_bit : Value) : HdlInstance :=
  {| inst_type := "IOBUFDS";
     inst_args := [i_ "T" t; i_ "I" i_bit; o_ "O" o_bit;
                   io_ "IO" io_bit; io_ "IOB" iob_bit] |}.

(** A port argument of [Instance(...)] is cast to a value when the
    instance is built: [None] is a [TypeError]. *)
Definition cast (v : option Value) : Res Value :=
  match v with
  | Some v' => Ok v'
  | None => Raise TypeError
  end.

(** [for bit in range(pin.width):
       m.submodules["{}_{}".format(pin.name, bit)] = <instance of bit>]. *)
Definition per_bit (pin : Pin) (mk : nat → Res HdlInstance) (m : HdlModule)
  : Res HdlModule :=
  for_each (seq 0 (pin_width pin))
    (λ bit m,
       inst ← mk bit;
       set_submodule m (pin_name pin +:+ "_" +:+ pretty bit) inst)
    m.

Section PinBuffers.

(** The generic implementations of the platform base class, to which the
    Symbiflow profile falls back, are not part of the sources: they are
    parameters, as is the type of the [attrs] they are given. *)
Variable Base : Type.
Variable Attrs : Type.
Variable super_get_tristate :
  Xilinx7SeriesPlatform Base → Pin → Port → Attrs → bool → M HdlModule.
Variable super_get_input_output :
  Xilinx7SeriesPlatform Base → Pin → Port → Attrs → bool → M HdlModule.
Variable super_get_diff_input :
  Xilinx7SeriesPlatform Base → Pin → DiffPort → Attrs → bool → M HdlModule.
Variable super_get_diff_output :
  Xilinx7SeriesPlatform Base → Pin → DiffPort → Attrs → bool → M HdlModule.
Variable super_get_diff_tristate :
  Xilinx7SeriesPlatform Base → Pin → DiffPort → Attrs → bool → M HdlModule.
Variable super_get_diff_input_output :
  Xilinx7SeriesPlatform Base → Pin → DiffPort → Attrs → bool → M HdlModule.

Definition get_input (self : Xilinx7SeriesPlatform Base) (pin : Pin)
    (port : Port) (attrs : Attrs) (invert : bool) : M HdlModule :=
  _ ← lift (_check_feature pin [0; 1; 2]);
  let m := new_Module in
  '(m, (i, o, t)) ← _get_xdr_buffer m pin (Some invert) None;
  lift (per_bit pin
          (λ bit,
             io_bit ← getitem (VSig (port_io port)) bit;
             i_bit ← subscript i bit;
             mret (IBUF io_bit i_bit))
          m).

Definition get_tristate (self : Xilinx7SeriesPlatform Base) (pin : Pin)
    (port : Port) (attrs : Attrs) (invert : bool) : M HdlModule :=
  if bool_decide (toolchain self = "Symbiflow") then
    super_get_tristate self pin port attrs invert
  else
    _ ← lift (_check_feature pin [0; 1; 2]);
    let m := new_Module in
    '(m, (i, o, t)) ← _get_xdr_buffer m pin None (Some invert);
    lift (per_bit pin
            (λ bit,
               o_bit ← subscript o bit;
               io_bit ← getitem (VSig (port_io port)) bit;
               t ← cast t;
               mret (OBUFT t o_bit io_bit))
            m).

Definition get_input_output (self : Xilinx7SeriesPlatform Base) (pin : Pin)
    (port : Port) (attrs : Attrs) (invert : bool) : M HdlModule :=
  if bool_decide (toolchain self = "Symbiflow") then
    super_get_input_output self pin port attrs invert
  else
    _ ← lift (_check_feature pin [0; 1; 2]);
    let m := new_Module in
    '(m, (i, o, t)) ← _get_xdr_buffer m pin (Some invert) (Some invert);
    lift (per_bit pin
            (λ bit,
               o_bit ← subscript o bit;
               i_bit ← subscript i bit;
               io_bit ← getitem (VSig (port_io port)) bit;
               t ← cast t;
               mret (IOBUF t o_bit i_bit io_bit))
            m).

Definition get_diff_input (self : Xilinx7SeriesPlatform Base) (pin : Pin)
    (port : DiffPort) (attrs : Attrs) (invert : bool) : M HdlModule :=
  if bool_decide (toolchain self = "Symbiflow") then
    super_get_diff_input self pin port attrs invert
  else
    _ ← lift (_check_feature pin [0; 1; 2]);
    let m := new_Module in
    '(m, (i, o, t)) ← _get_xdr_buffer m pin (Some invert) None;
    lift (per_bit pin
            (λ bit,
               p_bit ← getitem (VSig (port_p port)) bit;
               n_bit ← getitem (VSig (port_n port)) bit;
               i_bit ← subscript i bit;
               mret (IBUFDS p_bit n_bit i_bit))
            m).

Definition get_diff_output (self : Xilinx7SeriesPlatform Base) (pin : Pin)
    (port : DiffPort) (attrs : Attrs) (invert : bool) : M HdlModule :=
  if bool_decide (toolchain self = "Symbiflow") then
    super_get_diff_output self pin port attrs invert
  else
    _ ← lift (_check_feature pin [0; 1; 2]);
    let m := new_Module in
    '(m, (i, o, t)) ← _get_xdr_buffer m pin None (Some invert);
    lift (per_bit pin
            (λ bit,
               o_bit ← subscript o bit;
               p_bit ← getitem (VSig (port_p port)) bit;
               n_bit ← getitem (VSig (port_n port)) bit;
               mret (OBUFDS o_bit p_bit n_bit))
            m).

Definition get_diff_tristate (self : Xilinx7SeriesPlatform Base) (pin : Pin)
    (port : DiffPort) (attrs : Attrs) (invert : bool) : M HdlModule :=
  if bool_decide (toolchain self = "Symbiflow") then
    super_get_diff_tristate self pin port attrs invert
  else
    _ ← lift (_check_feature pin [0; 1; 2]);
    let m := new_Module in
    '(m, (i, o, t)) ← _get_xdr_buffer m pin None (Some invert);
    lift (per_bit pin
            (λ bit,
               o_bit ← subscript o bit;
               p_bit ← getitem (VSig (port_p port)) bit;
               n_bit ← getitem (VSig (port_n port)) bit;
               t ← cast t;
               mret (OBUFTDS t o_bit p_bit n_bit))
            m).

Definition get_diff_input_output (self : Xilinx7SeriesPlatform Base)
    (pin : Pin) (port : DiffPort) (attrs : Attrs) (invert : bool)
  : M HdlModule :=
  if bool_decide (toolchain self = "Symbiflow") then
    super_get_diff_input_output self pin port attrs invert
  else
    _ ← lift (_check_feature pin [0; 1; 2]);
    let m := new_Module in
    '(m, (i, o, t)) ← _get_xdr_buffer m pin (Some invert) (Some invert);
    lift (per_bit pin
            (λ bit,
               o_bit ← subscript o bit;
               i_bit ← subscript i bit;
               p_bit ← getitem (VSig (port_p port)) bit;
               n_bit ← getitem (VSig (port_n port)) bit;
               t ← cast t;
               mret (IOBUFDS t o_bit i_bit p_bit n_bit))
            m).

End PinBuffers.

Arguments get_input {Base Attrs} self pin port attrs invert.
Arguments get_tristate {Base Attrs} super_get_tristate self pin port attrs invert.
Arguments get_input_output {Base Attrs} super_get_input_output
  self pin port attrs invert.
Arguments get_diff_input {Base Attrs} super_get_diff_input
  self pin port attrs invert.
Arguments get_diff_output {Base Attrs} super_get_diff_output
  self pin port attrs invert.
Arguments get_diff_tristate {Base Attrs} super_get_diff_tristate
  self pin port attrs invert.
Arguments get_diff_input_output {Base Attrs} super_get_diff_input_output
  self pin port attrs invert.

(** [m] with one named primitive per bit of the pin appended. *)
Definition with_bits (pin : Pin) (inst : nat → HdlInstance) (m : HdlModule)
  : HdlModule :=
  {| submodules :=
       submodules m ++
       ((λ bit, (Some (pin_name pin +:+ "_" +:+ pretty bit), inst bit))
          <$> seq 0 (pin_width pin));
     domains := domains m; statements := statements m |}.

(** Ports for the examples: a narrow one, and a differential pair. *)
Definition example_DiffPort : DiffPort :=
  {| port_p := {| sig_uid := 100; sig_name := "port__p";
                  sig_shape := unsigned 2; sig_reset := 0;
                  sig_reset_less := false |};
     port_n := {| sig_uid := 101; sig_name := "port__n";
                  sig_shape := unsigned 2; sig_reset := 0;
                  sig_reset_less := false |} |}.

Definition narrow_Port : Port :=
  {| port_io := {| sig_uid := 100; sig_name := "port__io";
                   sig_shape := unsigned 1; sig_reset := 0;
                   sig_reset_less := false |} |}.

(** A fallback of the base class that is never reached in the examples. *)
Definition no_fallback {P : Type} (self : Xilinx7SeriesPlatform unit)
    (pin : Pin) (port : P) (attrs : unit) (invert : bool) : M HdlModule :=
  lift (Raise NotImplementedError).

(** ** Loops that instantiate one primitive per bit *)

Lemma add_submodules_nil m : add_submodules m [] = m.
Proof. destruct m; unfold add_submodules; simpl. by rewrite app_nil_r. Qed.

Lemma add_submodules_cons m inst insts :
  add_submodules (add_submodule m inst) insts = add_submodules m (inst :: insts).
Proof. unfold add_submodules, add_submodule; simpl. by rewrite <- app_assoc. Qed.

Lemma for_each_insts (mk : nat → HdlInstance) (body : nat → HdlModule → Res HdlModule)
    (bits : list nat) (m : HdlModule) :
  (∀ bit m', bit ∈ bits → body bit m' = Ok (add_submodule m' (mk bit))) →
  for_each bits body m = Ok (add_submodules m (map mk bits)).
Proof.
  revert m. induction bits as [|b bits IH]; intros m Hbody; simpl.
  - by rewrite add_submodules_nil.
  - rewrite Hbody by left. rewrite IH.
    + by rewrite add_submodules_cons.
    + intros bit m' Hin. apply Hbody. by right.
Qed.

Lemma getitem_ok v bit : bit < len v → getitem v bit = Ok (VBit v bit).
Proof.
  intros Hlt. unfold getitem.
  destruct (Nat.ltb_spec bit (len v)); [done | lia].
Qed.

Lemma get_dff_ok clk d q m :
  len q ≤ len d →
  get_dff clk d q m =
    Ok (add_submodules m
          (map (λ bit, FDCE clk (VBit d bit) (VBit q bit)) (seq 0 (len q)))).
Proof.
  intros Hlen. unfold get_dff. apply for_each_insts.
  intros bit m' Hin. apply elem_of_seq in Hin.
  rewrite !getitem_ok by lia. done.
Qed.

Lemma get_iddr_ok clk d q1 q2 m :
  len q1 ≤ len d → len q1 ≤ len q2 →
  get_iddr clk d q1 q2 m =
    Ok (add_submodules m
          (map (λ bit, IDDR clk (VBit d bit) (VBit q1 bit) (VBit q2 bit))
               (seq 0 (len q1)))).
Proof.
  intros Hd Hq. unfold get_iddr. apply for_each_insts.
  intros bit m' Hin. apply elem_of_seq in Hin.
  rewrite !getitem_ok by lia. done.
Qed.

Lemma get_oddr_ok clk d1 d2 q m :
  len q ≤ len d1 → len q ≤ len d2 →
  get_oddr clk d1 d2 q m =
    Ok (add_submodules m
          (map (λ bit, ODDR clk (VBit d1 bit) (VBit d2 bit) (VBit q bit))
               (seq 0 (len q)))).
Proof.
  intros Hd1 Hd2. unfold get_oddr. apply for_each_insts.
  intros bit m' Hin. apply elem_of_seq in Hin.
  rewrite !getitem_ok by lia. done.
Qed.

(** Counting the instances of one primitive. *)
Lemma count_type_add_submodules ty m insts :
  count_type ty (add_submodules m insts) =
    count_type ty m + length (filter (λ inst, inst_type inst = ty) insts).
Proof.
  unfold count_type, add_submodules; simpl.
  rewrite list.filter_app, List.length_app. f_equal.
  induction insts as [|inst insts IH]; [done|]. simpl.
  rewrite !filter_cons; simpl. destruct (decide (inst_type inst = ty)); simpl; lia.
Qed.

Lemma filter_map_all {A} (mk : A → HdlInstance) ty (xs : list A) :
  (∀ x, inst_type (mk x) = ty) →
  length (filter (λ inst, inst_type inst = ty) (map mk xs)) = length xs.
Proof.
  intros Hty. induction xs as [|x xs IH]; [done|]. simpl.
  rewrite filter_cons. destruct (decide _) as [|Hne]; simpl; [lia|].
  by destruct Hne.
Qed.

Lemma filter_map_none {A} (mk : A → HdlInstance) ty (xs : list A) :
  (∀ x, inst_type (mk x) ≠ ty) →
  length (filter (λ inst, inst_type inst = ty) (map mk xs)) = 0.
Proof.
  intros Hty. induction xs as [|x xs IH]; [done|]. simpl.
  rewrite filter_cons. destruct (decide _) as [He|]; simpl; [|done].
  by destruct (Hty x).
Qed.

Lemma count_type_app ty m m' insts :
  submodules m' = submodules m ++ map (pair None) insts →
  count_type ty m' =
    count_type ty m + length (filter (λ inst, inst_type inst = ty) insts).
Proof.
  intros Hsub. rewrite <- count_type_add_submodules.
  unfold count_type. by rewrite Hsub.
Qed.

(** ** Symbolic execution of the XDR buffer *)

Lemma field_ok_true h present w field :
  field_ok h present w field = true →
  if present
  then ∃ s, field = Some s ∧ sig_shape s = unsigned w ∧ sig_uid s < next_uid h
  else field = None.
Proof.
  unfold field_ok. destruct field as [s|], present; simpl; try done.
  intros H. apply andb_prop in H as [H1 H2].
  apply bool_decide_eq_true in H1. apply Nat.ltb_lt in H2. eauto.
Qed.

Lemma pin_wf_dir h pin :
  pin_wf h pin = true →
  pin_dir pin = "i" ∨ pin_dir pin = "o" ∨ pin_dir pin = "oe" ∨ pin_dir pin = "io".
Proof.
  unfold pin_wf. intros Hwf.
  repeat (apply andb_prop in Hwf as [Hwf _]).
  apply bool_decide_eq_true in Hwf.
  repeat (apply elem_of_cons in Hwf as [->|Hwf]); auto.
  by apply elem_of_nil in Hwf.
Qed.

(** With the direction and level known, [pin_fields] turns [pin_wf] into
    the fields the layout has, and rewrites them in the goal. *)
Ltac pin_fields Hwf Hxdr Hdir :=
  unfold pin_wf in Hwf; rewrite Hxdr, Hdir in Hwf;
  repeat (let H := fresh "Hf" in
          apply andb_prop in Hwf; destruct Hwf as [Hwf H];
          apply field_ok_true in H; simpl in H);
  repeat match goal with
         | H : ∃ _, _ |- _ =>
             let s := fresh "s" in
             let Hs := fresh "Hshape" in
             let Hu := fresh "Huid" in
             destruct H as (s & H & Hs & Hu)
         end.

Ltac rewrite_fields :=
  repeat match goal with
         | H : _ ?pin = Some _ |- _ => rewrite H
         | H : _ ?pin = None |- _ => rewrite H
         end.

Ltac run_buffer :=
  unfold _get_xdr_buffer, bind_neg, get_ineg, get_oneg, xdr_signal, when,
    Signal_like, new_Signal, mbind, mret, m_mbind, m_mret, m_bind, m_ret,
    lift, res_mbind, res_mret, res_bind, local, getattr, assert;
  simpl;
  repeat (progress (rewrite ?get_dff_ok, ?get_iddr_ok, ?get_oddr_ok; simpl)).

Ltac solve_len :=
  unfold len; simpl;
  repeat match goal with H : sig_shape _ = _ |- _ => rewrite H end;
  simpl; lia.

(** ** Level 1: registers in the pad *)




(** ** Level 2: double data rate input *)

Lemma filter_insts_all {A} (P : option string * HdlInstance → Prop)
    `{∀ sub, Decision (P sub)} (mk : A → HdlInstance) (xs : list A) :
  (∀ x, P (None, mk x)) →
  filter P (map (pair None) (map mk xs)) = map (pair None) (map mk xs).
Proof.
  intros HP. induction xs as [|x xs IH]; [done|]. simpl.
  rewrite filter_cons. destruct (decide _) as [|Hne]; [by rewrite IH|].
  by destruct Hne.
Qed.

Lemma filter_insts_none {A} (P : option string * HdlInstance → Prop)
    `{∀ sub, Decision (P sub)} (mk : A → HdlInstance) (xs : list A) :
  (∀ x, ¬ P (None, mk x)) →
  filter P (map (pair None) (map mk xs)) = [].
Proof.
  intros HP. induction xs as [|x xs IH]; [done|]. simpl.
  rewrite filter_cons. destruct (decide _) as [He|]; [|done].
  by destruct (HP x).
Qed.

Lemma filter_type_all {A} (mk : A → HdlInstance) ty (xs : list A) :
  (∀ x, inst_type (mk x) = ty) →
  filter (λ sub : option string * HdlInstance, inst_type sub.2 = ty)
         (map (pair None) (map mk xs))
  = map (pair None) (map mk xs).
Proof. intros Hty. by apply filter_insts_all. Qed.

Lemma filter_type_none {A} (mk : A → HdlInstance) ty (xs : list A) :
  (∀ x, inst_type (mk x) ≠ ty) →
  filter (λ sub : option string * HdlInstance, inst_type sub.2 = ty)
         (map (pair None) (map mk xs))
  = [].
Proof. intros Hty. by apply filter_insts_none. Qed.

Lemma filter_drives_none {A} (mk : A → HdlInstance) v (xs : list A) :
  (∀ x, drives v (mk x) = false) →
  filter (λ sub : option string * HdlInstance, drives v sub.2 = true)
         (map (pair None) (map mk xs))
  = [].
Proof.
  intros Hd. apply filter_insts_none. intros x. simpl. by rewrite Hd.
Qed.

(** C7: a level-2 input request of width W gets exactly W IDDR primitives,
    one per bit, each with DDR_CLK_EDGE = SAME_EDGE_PIPELINED,
    SRTYPE = ASYNC, INIT_Q1 = INIT_Q2 = 0, taking one data bit and the
    input clock and producing the two phase outputs Q1 and Q2. *)
Theorem xdr2_input_deserializers (h : Heap) (m : HdlModule) (pin : Pin)
    (i_invert : bool) (o_invert : option bool) :
  pin_wf h pin = true →
  pin_xdr pin = 2 →
  str_in "i" (pin_dir pin) = true →
  (str_in "o" (pin_dir pin) = true → is_Some o_invert) →
  ∃ m' h' i o t q1 q2 i_clk,
    _get_xdr_buffer m pin (Some i_invert) o_invert h
      = Ok ((m', (Some i, o, t)), h') ∧
    pin_i_clk pin = Some i_clk ∧
    len i = pin_width pin ∧
    filter (λ sub, inst_type sub.2 = "IDDR") (submodules m')
      = filter (λ sub, inst_type sub.2 = "IDDR") (submodules m) ++
        map (pair None)
          (map (λ bit, IDDR (VSig i_clk) (VBit i bit) (VBit q1 bit) (VBit q2 bit))
               (seq 0 (pin_width pin))) ∧
    len q1 = pin_width pin ∧ len q2 = pin_width pin ∧
    count_type "IDDR" m' = count_type "IDDR" m + pin_width pin ∧
    ∀ bit, bit < pin_width pin →
      let args :=
        inst_args (IDDR (VSig i_clk) (VBit i bit) (VBit q1 bit) (VBit q2 bit)) in
      p_ "DDR_CLK_EDGE" (PStr "SAME_EDGE_PIPELINED") ∈ args ∧
      p_ "SRTYPE" (PStr "ASYNC") ∈ args ∧
      p_ "INIT_Q1" (PInt 0) ∈ args ∧ p_ "INIT_Q2" (PInt 0) ∈ args ∧
      find_input "C" args = Some (VSig i_clk) ∧
      find_input "D" args = Some (VBit i bit) ∧
      find_output "Q1" args = Some (VBit q1 bit) ∧
      find_output "Q2" args = Some (VBit q2 bit).
Proof.
  intros Hwf Hxdr Hi Ho.
  assert (Hdir : pin_dir pin = "i" ∨
                 (pin_dir pin = "io" ∧ ∃ b, o_invert = Some b)).
  { destruct (pin_wf_dir h pin Hwf) as [Hd|[Hd|[Hd|Hd]]]; rewrite Hd in Hi, Ho.
    - by left.
    - discriminate Hi.
    - discriminate Hi.
    - right. split; [done|]. destruct Ho as [b ->]; [done|]. by exists b. }
  assert (Hparams : ∀ clk d a b,
    let args := inst_args (IDDR clk d a b) in
    p_ "DDR_CLK_EDGE" (PStr "SAME_EDGE_PIPELINED") ∈ args ∧
    p_ "SRTYPE" (PStr "ASYNC") ∈ args ∧
    p_ "INIT_Q1" (PInt 0) ∈ args ∧ p_ "INIT_Q2" (PInt 0) ∈ args ∧
    find_input "C" args = Some clk ∧ find_input "D" args = Some d ∧
    find_output "Q1" args = Some a ∧ find_output "Q2" args = Some b).
  { intros clk d a b. simpl. repeat split; try reflexivity; repeat constructor. }
  destruct Hdir as [Hdir|[Hdir [o_inv ->]]]; pin_fields Hwf Hxdr Hdir.
  all: unfold _get_xdr_buffer; rewrite Hxdr, Hdir; rewrite_fields.
  all: destruct i_invert; try destruct o_inv; run_buffer; try solve_len.
  all: do 8 eexists; split; [reflexivity|].
  all: split; [reflexivity|].
  all: split; [solve_len|].
  all: match goal with
       | |- ?A ∧ _ => assert (Hsub : A); [|split; [exact Hsub|]]
       end.
  all: try (simpl; unfold len; simpl; rewrite ?Hshape, ?Hshape0, ?Hshape1,
              ?Hshape2, ?Hshape3, ?Hshape4, ?Hshape5; simpl;
            rewrite ?list.filter_app;
            rewrite filter_type_all by done;
            rewrite ?filter_type_none by done;
            rewrite ?app_nil_r; reflexivity).
  all: do 2 (split; [solve_len|]).
  all: split; [|intros bit _; apply Hparams].
  all: unfold count_type; rewrite Hsub, List.length_app, !List.length_map.
  all: by rewrite List.length_seq.
Qed.

Lemma xdr2_input_deserializers_witness :
  ∃ m' r h',
    _get_xdr_buffer new_Module (example_Pin 3 "i" 2).1 (Some true) None
      (example_Pin 3 "i" 2).2 = Ok ((m', r), h') ∧
    count_type "IDDR" m' = 3.
Proof.
  destruct (xdr2_input_deserializers (example_Pin 3 "i" 2).2 new_Module
              (example_Pin 3 "i" 2).1 true None)
    as (m' & h' & i & o & t & _ & _ & _ & Hrun & _ & _ & _ & _ & _ & Hcount & _);
    [reflexivity | reflexivity | reflexivity | discriminate |].
  exists m', (Some i, o, t), h'. split; [exact Hrun | exact Hcount].
Defined.

(** ** The tristate enable *)

Lemma drives_FDCE_self clk d t bit : drives t (FDCE clk d (VBit t bit)) = true.
Proof. unfold drives; simpl. by rewrite bool_decide_eq_true_2. Qed.

Lemma drives_FDCE_other clk d q t bit :
  q ≠ t → drives t (FDCE clk d (VBit q bit)) = false.
Proof. intros Hne. unfold drives; simpl. by rewrite bool_decide_eq_false_2. Qed.

Lemma drives_IDDR_other clk d q1 q2 t bit :
  q1 ≠ t → q2 ≠ t →
  drives t (IDDR clk d (VBit q1 bit) (VBit q2 bit)) = false.
Proof. intros H1 H2. unfold drives; simpl. by rewrite !bool_decide_eq_false_2. Qed.

Lemma drives_ODDR_other clk d1 d2 q t bit :
  q ≠ t → drives t (ODDR clk d1 d2 (VBit q bit)) = false.
Proof. intros Hne. unfold drives; simpl. by rewrite bool_decide_eq_false_2. Qed.

(** Two signal values with different identifiers are different. *)
Ltac neq_sig :=
  let Heq := fresh in
  intros Heq; apply (f_equal uid_of) in Heq; simpl in Heq; lia.

Lemma not_oe_value (oe : Signal) (env : Env) (b : bool) :
  sig_shape oe = unsigned 1 →
  sig_val env (sig_uid oe) = Z.b2z b →
  eval env (VNot (VSig oe)) = Z.b2z (negb b).
Proof. intros Hsh Hval. simpl. rewrite Hsh, Hval. by destruct b. Qed.

Ltac not_driven :=
  lazymatch goal with
  | |- drives _ (FDCE _ _ _) = false => apply drives_FDCE_other; neq_sig
  | |- drives _ (IDDR _ _ _ _) = false =>
      apply drives_IDDR_other; neq_sig
  | |- drives _ (ODDR _ _ _ _) = false => apply drives_ODDR_other; neq_sig
  end.

Lemma filter_drives_self clk d t bit :
  filter (λ sub : option string * HdlInstance, drives t sub.2 = true)
         (map (pair None) [FDCE clk d (VBit t bit)])
  = [(None, FDCE clk d (VBit t bit))].
Proof.
  simpl. rewrite filter_cons, decide_True by apply drives_FDCE_self. done.
Qed.



(** ** Arithmetic of shapes *)

Lemma wrap_unsigned w z : wrap (unsigned w) z = (z mod 2 ^ Z.of_nat w)%Z.
Proof. reflexivity. Qed.

Lemma wrap_unsigned_idemp w z :
  wrap (unsigned w) (wrap (unsigned w) z) = wrap (unsigned w) z.
Proof. rewrite !wrap_unsigned. apply Z.mod_mod. lia. Qed.

Lemma wrap_unsigned_small w z :
  (0 ≤ z < 2 ^ Z.of_nat w)%Z → wrap (unsigned w) z = z.
Proof. intros Hz. rewrite wrap_unsigned. by apply Z.mod_small. Qed.

Lemma wrap_lnot_bit w z bit :
  bit < w →
  Z.testbit (wrap (unsigned w) (Z.lnot z)) (Z.of_nat bit)
  = negb (Z.testbit z (Z.of_nat bit)).
Proof.
  intros Hbit. rewrite wrap_unsigned.
  rewrite Z.mod_pow2_bits_low by lia. apply Z.lnot_spec. lia.
Qed.

Lemma wrap_lnot_lnot w z :
  (0 ≤ z < 2 ^ Z.of_nat w)%Z →
  wrap (unsigned w) (Z.lnot (wrap (unsigned w) (Z.lnot z))) = z.
Proof.
  intros Hz. apply Z.bits_inj'. intros n Hn.
  destruct (Z_lt_le_dec n (Z.of_nat w)) as [Hlt|Hge].
  - replace n with (Z.of_nat (Z.to_nat n)) by lia.
    rewrite !wrap_lnot_bit by lia. apply negb_involutive.
  - rewrite wrap_unsigned, Z.mod_pow2_bits_high by lia.
    destruct (Z.eq_dec z 0%Z) as [->|Hnz]; [by rewrite Z.bits_0|].
    symmetry. apply (Z.bits_above_log2 z n); [lia|].
    apply Z.log2_lt_pow2; [lia|].
    eapply Z.lt_le_trans; [apply Hz|]. apply Z.pow_le_mono_r; lia.
Qed.

(** ** The output buffer under the two profiles *)

(** [m] with the named submodules [subs] appended. *)
Lemma for_each_named (name : nat → string) (mk : nat → HdlInstance)
    (body : nat → HdlModule → Res HdlModule) (bits : list nat) (m : HdlModule) :
  (∀ bit m', bit ∈ bits → body bit m' = set_submodule m' (name bit) (mk bit)) →
  NoDup (name <$> bits) →
  (∀ bit, bit ∈ bits → Some (name bit) ∉ (submodules m).*1) →
  for_each bits body m =
    Ok {| submodules := submodules m ++ ((λ bit, (Some (name bit), mk bit)) <$> bits);
          domains := domains m; statements := statements m |}.
Proof.
  revert m. induction bits as [|b bits IH]; intros m Hbody Hnodup Hfree; simpl.
  - rewrite app_nil_r. by destruct m.
  - rewrite Hbody by left. unfold set_submodule.
    rewrite bool_decide_eq_false_2 by (apply Hfree; left).
    rewrite fmap_cons in Hnodup. apply list.NoDup_cons in Hnodup as [Hb Hnodup].
    rewrite IH; simpl.
    + by rewrite <- app_assoc.
    + intros bit m' Hin. apply Hbody. by right.
    + done.
    + intros bit Hin. rewrite fmap_app. simpl.
      rewrite elem_of_app, list_elem_of_singleton.
      intros [Hold|Heq].
      * eapply Hfree; [by right|done].
      * apply Hb. injection Heq as Heq. rewrite <- Heq.
        by apply list_elem_of_fmap_2.
Qed.

Lemma bit_names_NoDup (prefix : string) (n : nat) :
  NoDup ((λ bit, prefix +:+ "_" +:+ pretty bit) <$> seq 0 n).
Proof.
  apply NoDup_fmap_2; [|apply NoDup_seq].
  intros a b Heq. apply (inj (String.app prefix)) in Heq.
  apply (inj (String.app "_")) in Heq. by apply (inj pretty).
Qed.

Lemma comb_holds_stmt env m lhs rhs :
  comb_holds env m = true →
  ("comb", Assign lhs rhs) ∈ statements m →
  eval env lhs = wrap (shape lhs) (eval env rhs).
Proof.
  unfold comb_holds. intros Hall Hin.
  rewrite forallb_forall in Hall. apply list_elem_of_In in Hin.
  specialize (Hall _ Hin). simpl in Hall. by apply Z.eqb_eq.
Qed.

Lemma OBUF_holds_inst env m name a y :
  OBUF_holds env m = true →
  (name, OBUF a y) ∈ submodules m →
  eval env y = eval env a.
Proof.
  unfold OBUF_holds. intros Hall Hin.
  rewrite forallb_forall in Hall. apply list_elem_of_In in Hin.
  specialize (Hall _ Hin). simpl in Hall. by apply Z.eqb_eq.
Qed.

(** C9: for a level-0 single-ended output request with the invert flag
    set, the Symbiflow branch of [get_output] negates twice, once in
    [get_oneg] inside the buffer and once in [_invert_if] when the port is
    driven, so the port carries the value of [pin.o] itself; under Vivado
    the OBUF primitives pass on the negated signal, so every port bit is the
    complement of the bit of [pin.o]. *)
Theorem output_inversion_by_profile {Base : Type}
    (self : Xilinx7SeriesPlatform Base) (h : Heap) (pin : Pin) (port : Port) :
  pin_wf h pin = true →
  pin_dir pin = "o" →
  pin_xdr pin = 0 →
  sig_shape (port_io port) = unsigned (pin_width pin) →
  ∃ o, pin_o pin = Some o ∧
    (toolchain self = "Symbiflow" →
       ∃ m h' o_n,
         get_output self pin port true h = Ok (m, h') ∧
         submodules m = [] ∧
         statements m =
           [("comb", Assign (VSig o_n) (VNot (VSig o)));
            ("comb", Assign (VSig (port_io port)) (VNot (VSig o_n)))] ∧
         ∀ env, comb_holds env m = true →
           (0 ≤ sig_val env (sig_uid o) < 2 ^ Z.of_nat (pin_width pin))%Z →
           sig_val env (sig_uid (port_io port)) = sig_val env (sig_uid o)) ∧
    (toolchain self = "Vivado" →
       ∃ m h' o_n,
         get_output self pin port true h = Ok (m, h') ∧
         statements m = [("comb", Assign (VSig o_n) (VNot (VSig o)))] ∧
         submodules m =
           (λ bit, (Some (pin_name pin +:+ "_" +:+ pretty bit),
                    OBUF (VBit (VSig o_n) bit) (VBit (VSig (port_io port)) bit)))
           <$> seq 0 (pin_width pin) ∧
         ∀ env, comb_holds env m = true → OBUF_holds env m = true →
           ∀ bit, bit < pin_width pin →
             Z.testbit (sig_val env (sig_uid (port_io port))) (Z.of_nat bit)
             = negb (Z.testbit (sig_val env (sig_uid o)) (Z.of_nat bit))).
Proof.
  intros Hwf Hdir Hxdr Hport.
  pose proof Hwf as Hwf'. pin_fields Hwf' Hxdr Hdir.
  exists s. split; [done|]. split; intros Htc.
  - unfold get_output, _check_feature. rewrite Htc.
    unfold _get_xdr_buffer. rewrite Hxdr, Hdir. rewrite_fields. run_buffer.
    do 3 eexists. split; [reflexivity|]. split; [reflexivity|].
    split; [reflexivity|]. intros env Hcomb Hrange.
    pose proof (comb_holds_stmt env _ _ _ Hcomb
                  ltac:(apply list_elem_of_here)) as Hn.
    pose proof (comb_holds_stmt env _ _ _ Hcomb
                  ltac:(apply list_elem_of_further, list_elem_of_here)) as Hp.
    simpl in Hn, Hp. rewrite Hp, Hn, Hport, Hshape.
    rewrite !wrap_unsigned_idemp. by apply wrap_lnot_lnot.
  - unfold get_output, _check_feature. rewrite Htc.
    unfold _get_xdr_buffer. rewrite Hxdr, Hdir. rewrite_fields. run_buffer.
    erewrite (for_each_named (λ bit, pin_name pin +:+ "_" +:+ pretty bit)).
    + do 3 eexists. split; [reflexivity|]. split; [reflexivity|].
      split; [reflexivity|]. intros env Hcomb Hbuf bit Hbit.
      pose proof (comb_holds_stmt env _ _ _ Hcomb
                    ltac:(apply list_elem_of_here)) as Hn.
      pose proof (OBUF_holds_inst env _ _ _ _ Hbuf
                    ltac:(simpl; apply list_elem_of_fmap; exists bit;
                          split; [reflexivity | apply elem_of_seq; lia])) as Hb.
      simpl in Hn, Hb. apply Z.b2z_inj in Hb. rewrite Hb, Hn, Hshape.
      rewrite wrap_unsigned_idemp. by apply wrap_lnot_bit.
    + intros bit m' Hin. apply elem_of_seq in Hin. simpl.
      rewrite !getitem_ok by solve_len. reflexivity.
    + apply bit_names_NoDup.
    + intros bit _. simpl. apply not_elem_of_nil.
Qed.

Lemma output_inversion_by_profile_witness :
  ∃ m h',
    get_output symbiflow_platform (example_Pin 2 "o" 0).1 example_Port true
      example_heap = Ok (m, h') ∧
    submodules m = [].
Proof.
  destruct (output_inversion_by_profile symbiflow_platform example_heap
              (example_Pin 2 "o" 0).1 example_Port)
    as (o & _ & Hsymbiflow & _);
    [reflexivity | reflexivity | reflexivity | reflexivity |].
  destruct (Hsymbiflow eq_refl) as (m & h' & o_n & Hrun & Hsub & _).
  exists m, h'. split; [exact Hrun | exact Hsub].
Defined.

(** ** Stage chains *)

Lemma comprehension_stages sh reset reset_less (attrs : gmap string attr_value)
    (stages : nat) :
  ∀ (start : nat) (h : Heap),
    ∃ h',
      comprehension (seq start stages)
        (λ index, new_Signal sh ("stage" +:+ pretty index) reset reset_less attrs) h
      = Ok ((λ k, stage_signal sh reset reset_less (next_uid h + k) (start + k))
              <$> seq 0 stages, h') ∧
      next_uid h' = next_uid h + stages ∧
      ∀ u, sig_attrs h' !! u =
           if bool_decide (next_uid h ≤ u < next_uid h + stages)
           then Some attrs else sig_attrs h !! u.
Proof.
  induction stages as [|n IH]; intros start h.
  - exists h. simpl. split; [done|]. split; [lia|].
    intros u. rewrite bool_decide_eq_false_2; [done|lia].
  - simpl. unfold mbind, m_mbind, m_bind at 1. unfold new_Signal at 1.
    set (h1 := {| next_uid := S (next_uid h);
                  sig_attrs := <[next_uid h := attrs]> (sig_attrs h) |}).
    destruct (IH (S start) h1) as (h' & Hrun & Hnext & Hattrs).
    exists h'. unfold mbind, m_mbind, m_bind. rewrite Hrun. simpl.
    split; [|split].
    + unfold mret, m_mret, m_ret. do 2 f_equal.
      unfold stage_signal. rewrite !Nat.add_0_r. f_equal.
      rewrite <- fmap_S_seq, <- list_fmap_compose.
      apply list_fmap_ext. intros _ k _. simpl.
      by rewrite !Nat.add_succ_r.
    + rewrite Hnext. simpl. lia.
    + intros u. rewrite Hattrs. simpl.
      destruct (decide (u = next_uid h)) as [->|Hne].
      * rewrite bool_decide_eq_false_2 by lia.
        rewrite bool_decide_eq_true_2 by lia. apply lookup_insert_eq.
      * rewrite lookup_insert_ne by done.
        destruct (decide (S (next_uid h) ≤ u < S (next_uid h) + n)).
        -- rewrite !bool_decide_eq_true_2 by lia. done.
        -- rewrite !bool_decide_eq_false_2 by lia. done.
Qed.

Lemma chain_statements domain first flops m :
  statements (chain domain first flops m) =
    statements m ++ chain_stmts domain first flops
  ∧ submodules (chain domain first flops m) = submodules m
  ∧ domains (chain domain first flops m) = domains m.
Proof.
  unfold chain, chain_stmts.
  generalize (zip (first :: (VSig <$> flops)) flops).
  intros ios. revert m. induction ios as [|io ios IH]; intros m; simpl.
  - by rewrite app_nil_r.
  - destruct (IH (add_stmt m domain (VSig io.2) io.1)) as (Hst & Hsub & Hdom).
    rewrite Hst, Hsub, Hdom. simpl. by rewrite <- app_assoc.
Qed.

Lemma chain_stmts_cons domain first flop flops :
  chain_stmts domain first (flop :: flops) =
    (domain, Assign (VSig flop) first) :: chain_stmts domain (VSig flop) flops.
Proof. reflexivity. Qed.

Lemma chain_stmts_length domain first flops :
  length (chain_stmts domain first flops) = length flops.
Proof.
  revert first. induction flops as [|flop flops IH]; intros first; [done|].
  rewrite chain_stmts_cons. simpl. by rewrite IH.
Qed.

Lemma chain_stmts_first domain first flops flop :
  flops !! 0 = Some flop →
  chain_stmts domain first flops !! 0 = Some (domain, Assign (VSig flop) first).
Proof. destruct flops as [|f flops]; [done|]. by intros [= ->]. Qed.

Lemma chain_stmts_next domain first flops k prev flop :
  flops !! k = Some prev →
  flops !! S k = Some flop →
  chain_stmts domain first flops !! S k
    = Some (domain, Assign (VSig flop) (VSig prev)).
Proof.
  revert first k. induction flops as [|f flops IH]; intros first k Hprev Hflop;
    [done|].
  rewrite chain_stmts_cons. simpl in *. destruct k as [|k].
  - injection Hprev as ->. by apply chain_stmts_first.
  - by apply IH.
Qed.

Lemma stage_signals_lookup sh reset reset_less n start stages k flop :
  ((λ k, stage_signal sh reset reset_less (n + k) (start + k)) <$> seq 0 stages)
    !! k = Some flop →
  k < stages ∧ flop = stage_signal sh reset reset_less (n + k) (start + k).
Proof.
  rewrite list_lookup_fmap. intros Hk.
  destruct (seq 0 stages !! k) as [j|] eqn:Hj; [|done].
  apply lookup_seq in Hj as [-> Hlt]. simpl in Hk. injection Hk as <-. done.
Qed.

Lemma stage_signals_lookup_lt sh reset reset_less n start stages k :
  k < stages →
  ((λ k, stage_signal sh reset reset_less (n + k) (start + k)) <$> seq 0 stages)
    !! k = Some (stage_signal sh reset reset_less (n + k) (start + k)).
Proof.
  intros Hlt. rewrite list_lookup_fmap, lookup_seq_lt by done. done.
Qed.

Lemma stage_signals_last sh reset reset_less n start stages :
  list.last ((λ k, stage_signal sh reset reset_less (n + k) (start + k))
               <$> seq 0 (S stages))
  = Some (stage_signal sh reset reset_less (n + stages) (start + stages)).
Proof.
  rewrite seq_S, fmap_app. simpl. apply last_snoc.
Qed.

(** The attributes of the stages after [set_timing_exception]. *)
Lemma timing_exception_attrs sh reset reset_less stages
    (max_input_delay : option float) (h h1 : Heap) :
  next_uid h1 = next_uid h + S stages →
  (∀ u, sig_attrs h1 !! u =
        if bool_decide (next_uid h ≤ u < next_uid h + S stages)
        then Some {[ "ASYNC_REG" := AttrStr "TRUE" ]} else sig_attrs h !! u) →
  ∃ h',
    set_timing_exception
      ((λ k, stage_signal sh reset reset_less (next_uid h + k) (0 + k))
         <$> seq 0 (S stages)) max_input_delay h1 = Ok (tt, h') ∧
    ∀ k, k < S stages →
      let attrs :=
        attrs_of h' (stage_signal sh reset reset_less (next_uid h + k) k) in
      attrs !! "ASYNC_REG" = Some (AttrStr "TRUE") ∧
      attrs !! "nmigen.vivado.false_path" =
        match k, max_input_delay with
        | 0, None => Some (AttrStr "TRUE")
        | _, _ => None
        end ∧
      attrs !! "nmigen.vivado.max_delay" =
        match k, max_input_delay with
        | 0, Some delay => Some (AttrFloatStr (delay * 1e9)%float)
        | _, _ => None
        end.
Proof.
  intros Hnext Hattrs.
  assert (Hstage : ∀ k, k < S stages →
    sig_attrs h1 !! (next_uid h + k) = Some {[ "ASYNC_REG" := AttrStr "TRUE" ]}).
  { intros k Hk. rewrite Hattrs, bool_decide_eq_true_2; [done|lia]. }
  destruct max_input_delay as [delay|];
    unfold set_timing_exception, mbind, m_mbind, m_bind, lift, list_getitem;
    rewrite stage_signals_lookup_lt by lia; unfold set_attr, attrs_of; simpl;
    (eexists; split; [reflexivity|]);
    intros k Hk; simpl; rewrite (Hstage 0) by lia; simpl;
    (destruct k as [|k];
     [ rewrite Nat.add_0_r, lookup_insert_eq; simpl
     | rewrite lookup_insert_ne by lia; rewrite Hstage by lia; simpl ]);
    repeat split; by simplify_map_eq.
Qed.

(** C2: with S stages, [get_ff_sync] allocates exactly S stage signals
    shaped like the input, stage 0 capturing the input and stage k+1
    capturing stage k in the target domain, the output following the last
    stage; every stage carries ASYNC_REG; only stage 0 carries a timing
    exception, the false path when no maximum input delay is given and
    otherwise the maximum delay [str(max_input_delay * 1e9)]. *)
Theorem ff_sync_stages (ff_sync : FFSynchronizer) (h : Heap) :
  0 < ff_stages ff_sync →
  ∃ m h' flops last,
    get_ff_sync ff_sync h = Ok (m, h') ∧
    length flops = ff_stages ff_sync ∧
    list.last flops = Some last ∧
    (∀ k flop, flops !! k = Some flop →
       flop = stage_signal (shape (ff_i ff_sync)) (ff_reset ff_sync)
                (ff_reset_less ff_sync) (next_uid h + k) k) ∧
    (∀ flop, flops !! 0 = Some flop →
       statements m !! 0
         = Some (ff_o_domain ff_sync, Assign (VSig flop) (ff_i ff_sync))) ∧
    (∀ k prev flop, flops !! k = Some prev → flops !! S k = Some flop →
       statements m !! S k
         = Some (ff_o_domain ff_sync, Assign (VSig flop) (VSig prev))) ∧
    statements m !! ff_stages ff_sync
      = Some ("comb", Assign (VSig (ff_o ff_sync)) (VSig last)) ∧
    length (statements m) = S (ff_stages ff_sync) ∧
    submodules m = [] ∧
    ∀ k flop, flops !! k = Some flop →
      attrs_of h' flop !! "ASYNC_REG" = Some (AttrStr "TRUE") ∧
      attrs_of h' flop !! "nmigen.vivado.false_path" =
        match k, ff_max_input_delay ff_sync with
        | 0, None => Some (AttrStr "TRUE")
        | _, _ => None
        end ∧
      attrs_of h' flop !! "nmigen.vivado.max_delay" =
        match k, ff_max_input_delay ff_sync with
        | 0, Some delay => Some (AttrFloatStr (delay * 1e9)%float)
        | _, _ => None
        end.
Proof.
  intros Hstages.
  destruct (ff_stages ff_sync) as [|stages] eqn:HS; [lia|].
  destruct (comprehension_stages (shape (ff_i ff_sync)) (ff_reset ff_sync)
              (ff_reset_less ff_sync) {[ "ASYNC_REG" := AttrStr "TRUE" ]}
              (S stages) 0 h) as (h1 & Hflops & Hnext & Hattrs).
  destruct (timing_exception_attrs (shape (ff_i ff_sync)) (ff_reset ff_sync)
              (ff_reset_less ff_sync) stages (ff_max_input_delay ff_sync)
              h h1 Hnext Hattrs) as (h' & Hexc & Hattrs').
  set (flops := (λ k, stage_signal (shape (ff_i ff_sync)) (ff_reset ff_sync)
                        (ff_reset_less ff_sync) (next_uid h + k) (0 + k))
                <$> seq 0 (S stages)) in *.
  pose proof (chain_statements (ff_o_domain ff_sync) (ff_i ff_sync) flops
                new_Module) as (Hst & Hsub & _).
  assert (Hlen : length flops = S stages).
  { unfold flops. by rewrite length_fmap, length_seq. }
  eexists (add_stmt (chain (ff_o_domain ff_sync) (ff_i ff_sync) flops new_Module)
            "comb" (VSig (ff_o ff_sync))
            (VSig (stage_signal (shape (ff_i ff_sync)) (ff_reset ff_sync)
                     (ff_reset_less ff_sync) (next_uid h + stages) (0 + stages)))),
    h', flops, _.
  split.
  { unfold get_ff_sync, mbind, m_mbind, m_bind. rewrite HS, Hflops.
    fold flops. rewrite Hexc. unfold lift, list_getitem_last.
    unfold flops. rewrite stage_signals_last. reflexivity. }
  split; [done|]. split; [apply stage_signals_last|].
  split.
  { intros k flop Hk. by apply stage_signals_lookup in Hk as [_ ->]. }
  cbn [statements add_stmt submodules]. rewrite Hst, Hsub.
  cbn [statements submodules new_Module app].
  split.
  { intros flop Hflop. rewrite lookup_app_l
      by (rewrite chain_stmts_length; lia).
    by apply chain_stmts_first. }
  split.
  { intros k prev flop Hprev Hflop.
    apply lookup_lt_Some in Hflop as Hlt.
    rewrite lookup_app_l by (rewrite chain_stmts_length; lia).
    by apply chain_stmts_next. }
  split.
  { rewrite lookup_app_r by (rewrite chain_stmts_length; lia).
    rewrite chain_stmts_length, Hlen, Nat.sub_diag. reflexivity. }
  split.
  { rewrite length_app, chain_stmts_length, Hlen. simpl. lia. }
  split; [done|].
  intros k flop Hk. apply stage_signals_lookup in Hk as [Hlt ->].
  apply (Hattrs' k Hlt).
Qed.

Lemma ff_sync_stages_witness :
  ∃ m h',
    get_ff_sync example_FFSynchronizer sync_heap = Ok (m, h') ∧
    length (statements m) = 4.
Proof.
  destruct (ff_sync_stages example_FFSynchronizer sync_heap)
    as (m & h' & flops & last & Hrun & _ & _ & _ & _ & _ & _ & Hlen & _);
    [simpl; lia|].
  exists m, h'. split; [exact Hrun | exact Hlen].
Defined.

(** ** The asynchronous-reset synchronizer *)

Lemma async_ff_sync_run (async_ff_sync : AsyncFFSynchronizer) (h : Heap) :
  0 < aff_stages async_ff_sync →
  ∃ h' last,
    let flops := stage_signals (unsigned 1) 1 false (next_uid h)
                   (aff_stages async_ff_sync) in
    list.last flops = Some last ∧
    get_async_ff_sync async_ff_sync h =
      Ok ({| submodules := [];
             domains := [ {| cd_name := "async_ff"; cd_async_reset := true;
                             cd_local := true |} ];
             statements :=
               chain_stmts "async_ff" (Const 0) flops ++
               [("comb", Assign (ResetSignal "async_ff")
                           (async_reset_source async_ff_sync));
                ("comb", Assign (ClockSignal "async_ff")
                           (ClockSignal (aff_o_domain async_ff_sync)));
                ("comb", Assign (VSig (aff_o async_ff_sync)) (VSig last))] |},
          h').
Proof.
  intros Hstages.
  destruct (aff_stages async_ff_sync) as [|stages] eqn:HS; [lia|].
  destruct (comprehension_stages (unsigned 1) 1 false
              {[ "ASYNC_REG" := AttrStr "TRUE" ]} (S stages) 0 h)
    as (h1 & Hflops & Hnext & Hattrs).
  destruct (timing_exception_attrs (unsigned 1) 1 false stages
              (aff_max_input_delay async_ff_sync) h h1 Hnext Hattrs)
    as (h' & Hexc & _).
  exists h', (stage_signal (unsigned 1) 1 false (next_uid h + stages) stages).
  split; [apply (stage_signals_last _ _ _ _ 0)|].
  unfold get_async_ff_sync, mbind, m_mbind, m_bind. rewrite HS, Hflops, Hexc.
  unfold lift, list_getitem_last. rewrite stage_signals_last.
  unfold mret, m_mret, m_ret. do 2 f_equal.
  set (flops := (λ k, stage_signal (unsigned 1) 1 false (next_uid h + k) (0 + k))
                <$> seq 0 (S stages)).
  set (m0 := add_domain new_Module _).
  pose proof (chain_statements "async_ff" (Const 0) flops m0)
    as (Hst & Hsub & Hdom).
  unfold async_reset_source.
  destruct (bool_decide (aff_edge async_ff_sync = "pos"));
    unfold add_stmt; cbn [statements submodules domains];
    rewrite Hst, Hsub, Hdom; cbn [statements submodules domains m0 add_domain new_Module app];
    rewrite <- !app_assoc; reflexivity.
Qed.

Lemma filter_assigns_chain lhs domain first flops :
  (∀ s, lhs ≠ VSig s) →
  filter (λ st, assigns lhs st = true) (chain_stmts domain first flops) = [].
Proof.
  intros Hlhs. revert first.
  induction flops as [|flop flops IH]; intros first; [done|].
  rewrite chain_stmts_cons, filter_cons, IH. simpl.
  rewrite bool_decide_eq_false_2; [done|]. intros Heq. by apply (Hlhs flop).
Qed.

Lemma clocked_chain domain first flops :
  flat_map (λ st : string * Statement,
     match st with
     | (d, Assign (VSig s) rhs) =>
         if bool_decide (d = domain) then [(s, rhs)] else []
     | _ => []
     end) (chain_stmts domain first flops)
  = chain_pairs first flops.
Proof.
  revert first. induction flops as [|flop flops IH]; intros first; [done|].
  rewrite chain_stmts_cons. simpl. rewrite bool_decide_eq_true_2 by done.
  simpl. unfold chain_pairs in *. simpl. by rewrite IH.
Qed.

Lemma chain_pairs_fst first flops : (chain_pairs first flops).*1 = flops.
Proof.
  unfold chain_pairs. apply fst_zip. simpl. rewrite length_fmap. lia.
Qed.

Lemma stage_signals_elem sh reset reset_less n stages flop :
  flop ∈ stage_signals sh reset reset_less n stages →
  ∃ k, k < stages ∧ flop = stage_signal sh reset reset_less (n + k) k.
Proof.
  unfold stage_signals. intros Hin.
  apply list_elem_of_fmap in Hin as (k & -> & Hk).
  apply elem_of_seq in Hk. exists k. split; [lia|done].
Qed.

Lemma stage_signals_length sh reset reset_less n stages :
  length (stage_signals sh reset reset_less n stages) = stages.
Proof. unfold stage_signals. by rewrite length_fmap, length_seq. Qed.

(** ** Clock edges on a chain *)

Lemma foldl_updates_notin (step : (nat → Z) → Signal * Value → nat → Z)
    (f : Signal * Value → Z) (L : list (Signal * Value)) (vals : nat → Z) (u : nat) :
  (∀ vals a, a ∈ L → step vals a = <[sig_uid a.1 := f a]> vals) →
  u ∉ sig_uid <$> L.*1 →
  foldl step vals L u = vals u.
Proof.
  revert vals. induction L as [|b L IH]; intros vals Hstep Hu; [done|].
  simpl. rewrite !fmap_cons, not_elem_of_cons in Hu. destruct Hu as [Hne Hu].
  rewrite IH; [|intros; apply Hstep; by right|done].
  rewrite Hstep by left. by apply fn_lookup_insert_ne.
Qed.

Lemma foldl_updates_in (step : (nat → Z) → Signal * Value → nat → Z)
    (f : Signal * Value → Z) (L : list (Signal * Value)) (vals : nat → Z)
    (j : nat) (a : Signal * Value) :
  (∀ vals a, a ∈ L → step vals a = <[sig_uid a.1 := f a]> vals) →
  NoDup (sig_uid <$> L.*1) →
  L !! j = Some a →
  foldl step vals L (sig_uid a.1) = f a.
Proof.
  revert vals j. induction L as [|b L IH]; intros vals j Hstep Hnodup Hj;
    [done|].
  rewrite !fmap_cons in Hnodup. apply list.NoDup_cons in Hnodup as [Hb Hnodup].
  simpl. destruct j as [|j]; simpl in Hj.
  - injection Hj as ->.
    rewrite (foldl_updates_notin step f); [|intros; apply Hstep; by right|done].
    rewrite Hstep by left. apply fn_lookup_insert.
  - apply (IH _ j); [intros; apply Hstep; by right|done|done].
Qed.

Lemma stage_signals_uids sh reset reset_less n stages :
  sig_uid <$> stage_signals sh reset reset_less n stages = seq n stages.
Proof.
  unfold stage_signals. rewrite <- list_fmap_compose.
  replace (seq n stages) with (seq (n + 0) stages) by (f_equal; lia).
  rewrite <- fmap_add_seq. by apply list_fmap_ext.
Qed.

Lemma chain_pairs_lookup_0 first flops flop :
  flops !! 0 = Some flop → chain_pairs first flops !! 0 = Some (flop, first).
Proof. destruct flops; [done|]. by intros [= ->]. Qed.

Lemma chain_pairs_lookup_S first flops k prev flop :
  flops !! k = Some prev → flops !! S k = Some flop →
  chain_pairs first flops !! S k = Some (flop, VSig prev).
Proof.
  unfold chain_pairs. intros Hprev Hflop.
  rewrite lookup_zip_with. rewrite Hflop. simpl.
  by rewrite list_lookup_fmap, Hprev.
Qed.

Lemma stage_signals_lookup_k sh reset reset_less n stages k :
  k < stages →
  stage_signals sh reset reset_less n stages !! k
  = Some (stage_signal sh reset reset_less (n + k) k).
Proof. intros Hk. apply (stage_signals_lookup_lt _ _ _ _ 0). done. Qed.

Lemma async_clocked (async_ff_sync : AsyncFFSynchronizer) flops last submods doms :
  clocked "async_ff"
    {| submodules := submods; domains := doms;
       statements :=
         chain_stmts "async_ff" (Const 0) flops ++
         [("comb", Assign (ResetSignal "async_ff")
                     (async_reset_source async_ff_sync));
          ("comb", Assign (ClockSignal "async_ff")
                     (ClockSignal (aff_o_domain async_ff_sync)));
          ("comb", Assign (VSig (aff_o async_ff_sync)) (VSig last))] |}
  = chain_pairs (Const 0) flops.
Proof.
  unfold clocked. cbn [statements]. rewrite flat_map_app, clocked_chain.
  simpl. apply app_nil_r.
Qed.

Lemma async_reset_state m flops flop env :
  clocked "async_ff" m = chain_pairs (Const 0) flops →
  NoDup (sig_uid <$> flops) →
  (∀ s, s ∈ flops → sig_reset_less s = false) →
  flop ∈ flops →
  sig_val (reset_state "async_ff" m env) (sig_uid flop)
  = wrap (sig_shape flop) (sig_reset flop).
Proof.
  intros Hclocked Hnodup Hrl Hin. unfold reset_state. simpl. rewrite Hclocked.
  apply list_elem_of_lookup in Hin as [j Hj].
  assert (Ha : ∃ a, chain_pairs (Const 0) flops !! j = Some a ∧ a.1 = flop).
  { destruct (chain_pairs (Const 0) flops !! j) as [a|] eqn:Ha.
    - exists a. split; [done|].
      pose proof (chain_pairs_fst (Const 0) flops) as Hfst.
      apply (f_equal (λ l, l !! j)) in Hfst.
      rewrite list_lookup_fmap, Ha, Hj in Hfst. by injection Hfst.
    - apply lookup_ge_None in Ha. apply lookup_lt_Some in Hj.
      pose proof (f_equal length (chain_pairs_fst (Const 0) flops)) as Hl.
      rewrite length_fmap in Hl. lia. }
  destruct Ha as (a & Ha & <-).
  apply (foldl_updates_in _ (λ a, wrap (sig_shape a.1) (sig_reset a.1)) _ _ j);
    [|by rewrite chain_pairs_fst|done].
  intros vals b Hb. rewrite Hrl; [done|].
  rewrite <- (chain_pairs_fst (Const 0) flops).
  by apply list_elem_of_fmap_2.
Qed.

(** C3: the reset of the private domain [async_ff] is driven by the source
    signal when the edge is "pos" and by its negation otherwise, and every
    stage of the chain is a resettable signal whose reset value is 1 (the
    request has no reset value of its own). *)
Theorem async_ff_sync_reset (async_ff_sync : AsyncFFSynchronizer) (h : Heap) :
  0 < aff_stages async_ff_sync →
  ∃ m h' flops,
    get_async_ff_sync async_ff_sync h = Ok (m, h') ∧
    length flops = aff_stages async_ff_sync ∧
    {| cd_name := "async_ff"; cd_async_reset := true; cd_local := true |}
      ∈ domains m ∧
    (clocked "async_ff" m).*1 = flops ∧
    filter (λ st, assigns (ResetSignal "async_ff") st = true) (statements m)
      = [("comb", Assign (ResetSignal "async_ff")
                    (if bool_decide (aff_edge async_ff_sync = "pos")
                     then aff_i async_ff_sync
                     else VNot (aff_i async_ff_sync)))] ∧
    (∀ env, comb_holds env m = true →
       rst_val env "async_ff" =
         wrap (unsigned 1)
           (eval env (if bool_decide (aff_edge async_ff_sync = "pos")
                      then aff_i async_ff_sync
                      else VNot (aff_i async_ff_sync)))) ∧
    ∀ flop, flop ∈ flops →
      sig_reset flop = 1%Z ∧ sig_reset_less flop = false ∧
      ∀ env, sig_val (reset_state "async_ff" m env) (sig_uid flop) = 1%Z.
Proof.
  intros Hstages.
  destruct (async_ff_sync_run async_ff_sync h Hstages) as (h' & last & Hlast & Hrun).
  set (flops := stage_signals (unsigned 1) 1 false (next_uid h)
                  (aff_stages async_ff_sync)) in *.
  eexists _, h', flops. split; [exact Hrun|].
  split; [apply stage_signals_length|].
  split; [apply list_elem_of_here|].
  pose proof (async_clocked async_ff_sync flops last [] 
                [ {| cd_name := "async_ff"; cd_async_reset := true;
                     cd_local := true |} ]) as Hclocked.
  split; [rewrite Hclocked; apply chain_pairs_fst|].
  split.
  { cbn [statements]. rewrite list.filter_app, filter_assigns_chain by done.
    reflexivity. }
  split.
  { intros env Hcomb.
    apply (comb_holds_stmt env _ (ResetSignal "async_ff")
             (async_reset_source async_ff_sync) Hcomb).
    cbn [statements]. apply elem_of_app. right. apply list_elem_of_here. }
  intros flop Hin.
  destruct (stage_signals_elem _ _ _ _ _ _ Hin) as (k & Hk & Hflop).
  split; [by rewrite Hflop|]. split; [by rewrite Hflop|].
  intros env.
  rewrite (async_reset_state _ flops flop env Hclocked);
    [by rewrite Hflop| | |done].
  - unfold flops. rewrite stage_signals_uids. apply NoDup_seq.
  - intros s Hs. by destruct (stage_signals_elem _ _ _ _ _ _ Hs) as (? & _ & ->).
Qed.

Lemma async_ff_sync_reset_witness :
  ∃ m h',
    get_async_ff_sync example_AsyncFFSynchronizer sync_heap = Ok (m, h') ∧
    filter (λ st, assigns (ResetSignal "async_ff") st = true) (statements m)
      = [("comb", Assign (ResetSignal "async_ff") (VNot (VSig sync_i)))].
Proof.
  destruct (async_ff_sync_reset example_AsyncFFSynchronizer sync_heap)
    as (m & h' & flops & Hrun & _ & _ & _ & Hreset & _); [simpl; lia|].
  exists m, h'. split; [exact Hrun | exact Hreset].
Defined.

Lemma chain_tick domain m first flops env j a :
  clocked domain m = chain_pairs first flops →
  NoDup (sig_uid <$> flops) →
  chain_pairs first flops !! j = Some a →
  sig_val (tick domain m env) (sig_uid a.1) = wrap (sig_shape a.1) (eval env a.2).
Proof.
  intros Hclocked Hnodup Ha. unfold tick. simpl. rewrite Hclocked.
  apply (foldl_updates_in _ (λ a, wrap (sig_shape a.1) (eval env a.2)) _ _ j);
    [done|by rewrite chain_pairs_fst|done].
Qed.

(** The stages of a chain fed with the constant 0, k clock edges after the
    reset was released: the first k stages hold 0, the others still 1. *)
Lemma async_chain_after m n stages env k :
  clocked "async_ff" m
    = chain_pairs (Const 0) (stage_signals (unsigned 1) 1 false n stages) →
  ∀ j, j < stages →
    sig_val (Nat.iter k (tick "async_ff" m) (reset_state "async_ff" m env))
      (n + j)
    = if (j <? k)%nat then 0%Z else 1%Z.
Proof.
  intros Hclocked.
  set (flops := stage_signals (unsigned 1) 1 false n stages) in *.
  assert (Hnodup : NoDup (sig_uid <$> flops)).
  { unfold flops. rewrite stage_signals_uids. apply NoDup_seq. }
  assert (Hrl : ∀ s, s ∈ flops → sig_reset_less s = false).
  { intros s Hs. by destruct (stage_signals_elem _ _ _ _ _ _ Hs) as (? & _ & ->). }
  induction k as [|k IH]; intros j Hj;
    pose proof (stage_signals_lookup_k (unsigned 1) 1 false n stages j Hj) as Hflop;
    fold flops in Hflop.
  - cbn [Nat.iter nat_rect].
    pose proof (async_reset_state m flops _ env Hclocked Hnodup Hrl
                  (list_elem_of_lookup_2 _ _ _ Hflop)) as Hreset.
    cbn [sig_uid sig_shape sig_reset stage_signal] in Hreset.
    rewrite Hreset. reflexivity.
  - rewrite Nat.iter_succ.
    set (env_k := Nat.iter k (tick "async_ff" m) (reset_state "async_ff" m env)) in *.
    destruct j as [|j].
    + pose proof (chain_tick "async_ff" m (Const 0) flops env_k 0 _ Hclocked
                    Hnodup (chain_pairs_lookup_0 _ _ _ Hflop)) as Htick.
      cbn [fst snd sig_uid sig_shape stage_signal] in Htick.
      rewrite Htick. reflexivity.
    + assert (Hprev : flops !! j
                      = Some (stage_signal (unsigned 1) 1 false (n + j) j)).
      { apply stage_signals_lookup_k. lia. }
      pose proof (chain_tick "async_ff" m (Const 0) flops env_k (S j) _ Hclocked
                    Hnodup (chain_pairs_lookup_S _ _ _ _ _ Hprev Hflop)) as Htick.
      cbn [fst snd sig_uid sig_shape stage_signal eval] in Htick.
      rewrite Htick, IH by lia.
      replace (S j <? S k)%nat with (j <? k)%nat by done.
      by destruct (j <? k)%nat.
Qed.



(** ** Toolchain profiles *)

(** C5: construction succeeds exactly for "Vivado" and "Symbiflow" and
    raises an assertion error for any other name; on the constructed
    platform each of [required_tools], [file_templates] and
    [command_templates] returns the table of the chosen toolchain; and
    [add_clock_constraint], the one method of the class that returns a new
    platform state, leaves the three tables as they were. *)
Theorem toolchain_profiles {Base : Type} (base_init : Base)
    (super_add_clock_constraint : Base → Signal → float → Res Base)
    (build_script_templates : gmap string file_template)
    (name : string) (self : Xilinx7SeriesPlatform Base)
    (clock : Signal) (frequency : float) (h : Heap) :
  __init__ base_init name =
    (if bool_decide (name = "Vivado" ∨ name = "Symbiflow")
     then Ok {| base := base_init; toolchain := name |}
     else Raise AssertionError) ∧
  (__init__ base_init "Vivado" ≫= required_tools) = Ok _vivado_required_tools ∧
  (__init__ base_init "Vivado" ≫= file_templates build_script_templates)
    = Ok (_vivado_file_templates build_script_templates) ∧
  (__init__ base_init "Vivado" ≫= command_templates)
    = Ok _vivado_command_templates ∧
  (__init__ base_init "Symbiflow" ≫= required_tools)
    = Ok _symbiflow_required_tools ∧
  (__init__ base_init "Symbiflow" ≫= file_templates build_script_templates)
    = Ok (_symbiflow_file_templates build_script_templates) ∧
  (__init__ base_init "Symbiflow" ≫= command_templates)
    = Ok _symbiflow_command_templates ∧
  match add_clock_constraint super_add_clock_constraint self clock frequency h with
  | Ok (self', _) =>
      toolchain self' = toolchain self ∧
      required_tools self' = required_tools self ∧
      file_templates build_script_templates self'
        = file_templates build_script_templates self ∧
      command_templates self' = command_templates self
  | Raise _ => True
  end.
Proof.
  split.
  { unfold __init__, assert, mbind, res_mbind, res_bind, mret, res_mret.
    destruct (decide (name = "Vivado" ∨ name = "Symbiflow")) as [Hname|Hname].
    - rewrite (bool_decide_eq_true_2 (name = "Vivado" ∨ name = "Symbiflow"))
        by done.
      rewrite bool_decide_eq_true_2; [done|].
      destruct Hname as [->| ->]; set_solver.
    - rewrite (bool_decide_eq_false_2 (name = "Vivado" ∨ name = "Symbiflow"))
        by done.
      rewrite bool_decide_eq_false_2; [done|].
      intros Hin. apply Hname.
      apply elem_of_cons in Hin as [->|Hin]; [by left|].
      apply list_elem_of_singleton in Hin as ->. by right. }
  do 6 (split; [reflexivity|]).
  unfold add_clock_constraint, mbind, m_mbind, m_bind, lift.
  destruct (super_add_clock_constraint (base self) clock frequency); done.
Qed.

(** ** Clock constraints *)

(** C6: when the base platform registers the constraint,
    [add_clock_constraint] returns the platform holding that registration
    and leaves ["keep"] = ["TRUE"] in the attributes of the clock signal,
    changing no other attribute. *)
Theorem add_clock_constraint_keep {Base : Type}
    (super_add_clock_constraint : Base → Signal → float → Res Base)
    (self : Xilinx7SeriesPlatform Base) (clock : Signal) (frequency : float)
    (h : Heap) (registered : Base) :
  super_add_clock_constraint (base self) clock frequency = Ok registered →
  ∃ h',
    add_clock_constraint super_add_clock_constraint self clock frequency h
      = Ok ({| base := registered; toolchain := toolchain self |}, h') ∧
    attrs_of h' clock !! "keep" = Some (AttrStr "TRUE") ∧
    (∀ key, key ≠ "keep" → attrs_of h' clock !! key = attrs_of h clock !! key) ∧
    (∀ s, sig_uid s ≠ sig_uid clock → attrs_of h' s = attrs_of h s).
Proof.
  intros Hsuper.
  unfold add_clock_constraint, mbind, m_mbind, m_bind, lift. rewrite Hsuper.
  unfold set_attr. eexists. split; [reflexivity|].
  match goal with
  | |- attrs_of ?h1 clock !! _ = _ ∧ _ =>
      assert (Hclock : attrs_of h1 clock
                       = <["keep" := AttrStr "TRUE"]> (attrs_of h clock))
        by (unfold attrs_of at 1; simpl; by rewrite lookup_insert_eq)
  end.
  rewrite Hclock. split; [|split].
  - apply lookup_insert_eq.
  - intros key Hkey. by rewrite lookup_insert_ne.
  - intros s Hs. unfold attrs_of. simpl. by rewrite lookup_insert_ne.
Qed.

Lemma add_clock_constraint_keep_witness :
  ∃ p h',
    add_clock_constraint registry_add
      {| base := []; toolchain := "Symbiflow" |} clk_net 100000000%float
      sync_heap = Ok (p, h') ∧
    base p = [(clk_net, 100000000%float)] ∧
    attrs_of h' clk_net !! "keep" = Some (AttrStr "TRUE").
Proof.
  destruct (add_clock_constraint_keep registry_add
              {| base := []; toolchain := "Symbiflow" |} clk_net
              100000000%float sync_heap [(clk_net, 100000000%float)])
    as (h' & Hrun & Hkeep & _); [reflexivity|].
  eexists _, h'. split; [exact Hrun|]. split; [reflexivity | exact Hkeep].
Defined.

(** When the base platform refuses the constraint, so does the call, and
    no attribute is set. *)
Lemma add_clock_constraint_raises {Base : Type}
    (super_add_clock_constraint : Base → Signal → float → Res Base)
    (self : Xilinx7SeriesPlatform Base) (clock : Signal) (frequency : float)
    (h : Heap) (e : exn) :
  super_add_clock_constraint (base self) clock frequency = Raise e →
  add_clock_constraint super_add_clock_constraint self clock frequency h
    = Raise e.
Proof.
  intros Hsuper.
  unfold add_clock_constraint, mbind, m_mbind, m_bind, lift. by rewrite Hsuper.
Qed.

Lemma for_clock_constraints_loop (body : clock_fact → Res (list create_clock))
    (lines : clock_fact → list create_clock)
    (constraints : list clock_fact) (out : list create_clock) :
  (∀ fact, fact ∈ constraints → body fact = Ok (lines fact)) →
  for_each constraints (λ fact out, lines ← body fact; mret (out ++ lines)) out
  = Ok (out ++ flat_map lines constraints).
Proof.
  revert out. induction constraints as [|fact cs IH]; intros out Hbody.
  - simpl. by rewrite app_nil_r.
  - cbn [for_each flat_map]. rewrite (Hbody fact) by apply list_elem_of_here.
    cbn. rewrite IH.
    + by rewrite <- app_assoc.
    + intros fact' Hin. apply Hbody. by apply list_elem_of_further.
Qed.

Lemma for_clock_constraints_ok (body : clock_fact → Res (list create_clock))
    (lines : clock_fact → list create_clock) (constraints : list clock_fact) :
  (∀ fact, fact ∈ constraints → body fact = Ok (lines fact)) →
  for_clock_constraints constraints body = Ok (flat_map lines constraints).
Proof.
  intros Hbody. unfold for_clock_constraints.
  by rewrite (for_clock_constraints_loop body lines).
Qed.

(** The loop ends with the exception of the first round that raises. *)
Lemma for_clock_constraints_raise (body : clock_fact → Res (list create_clock))
    (constraints : list clock_fact) (e : exn) :
  (∀ fact e', fact ∈ constraints → body fact = Raise e' → e' = e) →
  (∃ fact, fact ∈ constraints ∧ body fact = Raise e) →
  for_clock_constraints constraints body = Raise e.
Proof.
  unfold for_clock_constraints. generalize (@nil create_clock) as out.
  induction constraints as [|fact cs IH]; intros out Honly (bad & Hin & Hbad).
  - by apply elem_of_nil in Hin.
  - cbn [for_each]. destruct (body fact) as [lines|e'] eqn:Hfact.
    + cbn. apply IH.
      * intros fact' e' Hin'. apply Honly. by apply list_elem_of_further.
      * exists bad. split; [|done].
        apply elem_of_cons in Hin as [->|Hin]; [congruence|done].
    + cbn. f_equal. apply (Honly fact); [apply list_elem_of_here|done].
Qed.

Lemma flat_map_singleton {A B : Type} (f : A → B) (l : list A) :
  flat_map (λ x, [f x]) l = map f l.
Proof. induction l as [|x l IH]; [done|]. simpl. by rewrite IH. Qed.

Lemma period_nonzero (f : float) :
  (f =? 0)%float = false → period f = Ok (1000000000 / f)%float.
Proof. intros Hf. unfold period. by rewrite Hf. Qed.

Lemma period_zero (f : float) :
  (f =? 0)%float = true → period f = Raise ZeroDivisionError.
Proof. intros Hf. unfold period. by rewrite Hf. Qed.

Lemma vivado_create_clock_nonzero net port f :
  (f =? 0)%float = false →
  vivado_create_clock (net, port, f)
  = Ok [ {| cc_name := Some (sig_name (default net port));
            cc_period := (1000000000 / f)%float;
            cc_target := match port with
                         | Some p => get_ports (sig_name p)
                         | None => get_nets net
                         end |} ].
Proof.
  intros Hf. unfold vivado_create_clock.
  destruct port; by rewrite (period_nonzero f Hf).
Qed.

Lemma symbiflow_create_clock_nonzero net f :
  (f =? 0)%float = false →
  symbiflow_create_clock (net, None, f)
  = Ok [ {| cc_name := None;
            cc_period := (1000000000 / f)%float;
            cc_target := net_name (sig_name net) |} ].
Proof.
  intros Hf. unfold symbiflow_create_clock. by rewrite (period_nonzero f Hf).
Qed.

(** With no zero frequency the Vivado loop renders one line per fact. *)
Lemma vivado_xdc_clocks_ok (constraints : list clock_fact) :
  (∀ net port f, (net, port, f) ∈ constraints → (f =? 0)%float = false) →
  vivado_xdc_clocks constraints
  = Ok (map (λ '(net, port, f),
               {| cc_name := Some (sig_name (default net port));
                  cc_period := (1000000000 / f)%float;
                  cc_target := match port with
                               | Some p => get_ports (sig_name p)
                               | None => get_nets net
                               end |}) constraints).
Proof.
  intros Hfreq. unfold vivado_xdc_clocks.
  rewrite <- flat_map_singleton. apply for_clock_constraints_ok.
  intros [[net port] f] Hin.
  by rewrite vivado_create_clock_nonzero by by eapply Hfreq.
Qed.

(** With no zero frequency among the facts without a port the Symbiflow
    loop renders the lines of those facts. *)
Lemma symbiflow_sdc_clocks_ok (constraints : list clock_fact) :
  (∀ net f, (net, None, f) ∈ constraints → (f =? 0)%float = false) →
  symbiflow_sdc_clocks constraints
  = Ok (flat_map (λ '(net, port, f),
                    match port with
                    | None => [ {| cc_name := None;
                                   cc_period := (1000000000 / f)%float;
                                   cc_target := net_name (sig_name net) |} ]
                    | Some _ => []
                    end) constraints).
Proof.
  intros Hfreq. unfold symbiflow_sdc_clocks.
  apply for_clock_constraints_ok.
  intros [[net [port|]] f] Hin; [done|].
  by rewrite symbiflow_create_clock_nonzero by by eapply Hfreq.
Qed.

Lemma symbiflow_lines_elem (constraints : list clock_fact) line :
  line ∈ flat_map (λ '(net, port, f),
                     match port with
                     | None => [ {| cc_name := None;
                                    cc_period := (1000000000 / f)%float;
                                    cc_target := net_name (sig_name net) |} ]
                     | Some _ => []
                     end) constraints ↔
  ∃ net f, (net, None, f) ∈ constraints ∧
           line = {| cc_name := None; cc_period := (1000000000 / f)%float;
                     cc_target := net_name (sig_name net) |}.
Proof.
  induction constraints as [|[[n p] f'] cs IH].
  - split; [by intros ?%elem_of_nil|]. by intros (? & ? & ?%elem_of_nil & _).
  - cbn [flat_map]. destruct p as [p|].
    + simpl. rewrite IH. split.
      * intros (net & f & Hin & ->). exists net, f. split; [by right|done].
      * intros (net & f & Hin & ->). exists net, f. split; [|done].
        apply elem_of_cons in Hin as [Heq|Hin]; [done|done].
    + simpl. rewrite elem_of_cons, IH. split.
      * intros [->|(net & f & Hin & ->)].
        -- exists n, f'. split; [by left|done].
        -- exists net, f. split; [by right|done].
      * intros (net & f & Hin & ->).
        apply elem_of_cons in Hin as [Heq|Hin].
        -- left. by injection Heq as -> ->.
        -- right. by exists net, f.
Qed.

(** Rendering the templates one after the other fills the artifacts. *)
Lemma render_templates_loop (constraints : list clock_fact)
    (lines : file_template → list create_clock)
    (templates : list (string * file_template))
    (artifacts : gmap string (list create_clock)) :
  NoDup templates.*1 →
  (∀ name t, (name, t) ∈ templates →
     render_clock_lines t constraints = Ok (lines t)) →
  for_each templates
    (λ '(name, t) artifacts,
       lines ← render_clock_lines t constraints;
       mret (<[name := lines]> artifacts)) artifacts
  = Ok ((lines <$> list_to_map templates) ∪ artifacts).
Proof.
  revert artifacts.
  induction templates as [|[name t] ts IH]; intros artifacts Hnodup Hrender.
  - simpl. by rewrite fmap_empty, (left_id_L ∅ (∪)).
  - cbn [for_each]. rewrite (Hrender name t) by apply list_elem_of_here.
    cbn. apply list.NoDup_cons in Hnodup as [Hname Hnodup].
    rewrite IH; [|done|].
    + f_equal. rewrite fmap_insert, <- insert_union_l.
      rewrite insert_union_r; [done|].
      rewrite lookup_fmap. by rewrite (not_elem_of_list_to_map_1 _ _ Hname).
    + intros name' t' Hin. apply (Hrender name'). by apply list_elem_of_further.
Qed.

Lemma render_clocks_ok {Base : Type}
    (build_script_templates : gmap string file_template)
    (self : Xilinx7SeriesPlatform Base) (constraints : list clock_fact)
    (templates : gmap string file_template)
    (lines : file_template → list create_clock) :
  file_templates build_script_templates self = Ok templates →
  (∀ name t, templates !! name = Some t →
     render_clock_lines t constraints = Ok (lines t)) →
  render_clocks build_script_templates self constraints
  = Ok (lines <$> templates).
Proof.
  intros Htemplates Hrender. unfold render_clocks. rewrite Htemplates.
  rewrite (render_templates_loop constraints lines).
  - by rewrite list_to_map_to_list, (right_id_L ∅ (∪)).
  - apply NoDup_fst_map_to_list.
  - intros name t Hin. apply (Hrender name). by apply elem_of_map_to_list.
Qed.

(** C4 (as amended): when no accumulated clock fact has frequency zero,
    under the Vivado profile every fact, keyed by signal or by port, yields
    one [create_clock] line of [{{name}}.xdc] whose period is
    1000000000 / frequency; under the Symbiflow profile the lines of
    [{{name}}.sdc] are exactly those of the facts that have no port, again
    with period 1000000000 / frequency.  At 100,000,000 Hz the period is
    10. *)
Theorem clock_constraints_rendered {Base : Type} (b : Base)
    (build_script_templates : gmap string file_template)
    (constraints : list clock_fact) :
  (∀ net port f, (net, port, f) ∈ constraints → (f =? 0)%float = false) →
  (∃ artifacts lines,
     render_clocks build_script_templates
       {| base := b; toolchain := "Vivado" |} constraints = Ok artifacts ∧
     artifacts !! "{{name}}.xdc" = Some lines ∧
     length lines = length constraints ∧
     ∀ k net port f, constraints !! k = Some (net, port, f) →
       ∃ line, lines !! k = Some line ∧
               cc_period line = (1000000000 / f)%float ∧
               cc_target line = match port with
                                | Some p => get_ports (sig_name p)
                                | None => get_nets net
                                end) ∧
  (∃ artifacts lines,
     render_clocks build_script_templates
       {| base := b; toolchain := "Symbiflow" |} constraints = Ok artifacts ∧
     artifacts !! "{{name}}.sdc" = Some lines ∧
     ∀ line, line ∈ lines ↔
       ∃ net f, (net, None, f) ∈ constraints ∧
                line = {| cc_name := None;
                          cc_period := (1000000000 / f)%float;
                          cc_target := net_name (sig_name net) |}) ∧
  period 100000000 = Ok 10%float.
Proof.
  intros Hfreq.
  pose proof (vivado_xdc_clocks_ok constraints Hfreq) as Hxdc.
  pose proof (symbiflow_sdc_clocks_ok constraints
                (λ net f, Hfreq net None f)) as Hsdc.
  assert (Hall : ∀ t,
    render_clock_lines t constraints
    = Ok (match render_clock_lines t constraints with
          | Ok lines => lines
          | Raise _ => []
          end)).
  { intros t. destruct t; simpl; try reflexivity.
    - by rewrite Hxdc.
    - by rewrite Hsdc. }
  split; [|split; [|reflexivity]].
  - match type of Hxdc with _ = Ok ?lines => eexists _, lines end. split.
    { eapply render_clocks_ok; [reflexivity|]. intros name t _. apply Hall. }
    split.
    { unfold _vivado_file_templates. rewrite lookup_fmap.
      rewrite lookup_insert_eq. simpl. by rewrite Hxdc. }
    split; [by rewrite length_map|].
    intros k net port f Hk. eexists. split.
    { rewrite list_lookup_fmap. unfold clock_fact in *. rewrite Hk. reflexivity. }
    done.
  - match type of Hsdc with _ = Ok ?lines => eexists _, lines end. split.
    { eapply render_clocks_ok; [reflexivity|]. intros name t _. apply Hall. }
    split.
    { unfold _symbiflow_file_templates. rewrite lookup_fmap.
      rewrite lookup_insert_eq. simpl. by rewrite Hsdc. }
    apply symbiflow_lines_elem.
Qed.

Lemma clock_constraints_rendered_witness :
  ∃ artifacts lines,
    render_clocks ∅ vivado_platform
      [(clk_net, Some clk_port, 100000000%float); (clk_net, None, 50000000%float)]
      = Ok artifacts ∧
    artifacts !! "{{name}}.xdc" = Some lines ∧ length lines = 2.
Proof.
  destruct (clock_constraints_rendered tt ∅
              [(clk_net, Some clk_port, 100000000%float);
               (clk_net, None, 50000000%float)])
    as [(artifacts & lines & Hrun & Hxdc & Hlen & _) _].
  { intros net port f Hin.
    repeat (apply elem_of_cons in Hin as [[= -> -> ->]|Hin]; [reflexivity|]).
    by apply elem_of_nil in Hin. }
  exists artifacts, lines. split; [exact Hrun|]. split; [exact Hxdc|exact Hlen].
Defined.

(** C4 as stated fails: a port-keyed fact at 100 MHz gets no
    [create_clock] line in any artifact of the Symbiflow profile. *)
Lemma symbiflow_port_clock_counterexample :
  ∃ artifacts,
    render_clocks ∅ symbiflow_platform [(clk_net, Some clk_port, 100000000%float)]
      = Ok artifacts ∧
    artifacts !! "{{name}}.sdc" = Some [] ∧
    ∀ name lines, artifacts !! name = Some lines → lines = [].
Proof.
  eexists. split.
  { eapply (render_clocks_ok _ _ _ _ (λ _, [])); [reflexivity|].
    intros name t. unfold _symbiflow_file_templates.
    rewrite !lookup_insert, lookup_empty.
    repeat case_decide; simpl; by intros [= <-]. }
  split.
  { unfold _symbiflow_file_templates. rewrite lookup_fmap.
    by rewrite lookup_insert_eq. }
  intros name lines. rewrite lookup_fmap.
  destruct (_ !! name); simpl; by intros [= <-].
Qed.

(** * Further properties of the platform *)

(** ** Errors of the XDR buffer *)

(** X1: Any serialization level above 2 ends in the [assert False] of the
    last branch (or in an earlier assertion), whatever the pin and the
    inversion flags are. *)
Theorem xdr_buffer_unsupported_level (m : HdlModule) (pin : Pin)
    (i_invert o_invert : option bool) (h : Heap) :
  2 < pin_xdr pin →
  _get_xdr_buffer m pin i_invert o_invert h = Raise AssertionError.
Proof.
  intros Hxdr. unfold _get_xdr_buffer, bind_neg.
  destruct (Nat.ltb_spec (pin_xdr pin) 2); [lia|].
  destruct (Nat.eqb_spec (pin_xdr pin) 2); [lia|].
  destruct (Nat.eqb_spec (pin_xdr pin) 0); [lia|].
  destruct (Nat.eqb_spec (pin_xdr pin) 1); [lia|].
  destruct (str_in "i" (pin_dir pin)), (str_in "o" (pin_dir pin)),
    (dir_oe_io (pin_dir pin)), i_invert, o_invert; reflexivity.
Qed.

Lemma xdr_buffer_unsupported_level_witness :
  _get_xdr_buffer new_Module (example_Pin 1 "o" 4).1 None (Some false)
    (example_Pin 1 "o" 4).2 = Raise AssertionError.
Proof.
  apply (xdr_buffer_unsupported_level new_Module (example_Pin 1 "o" 4).1 None
           (Some false) (example_Pin 1 "o" 4).2).
  simpl. lia.
Defined.

(** X2: A direction that is present needs its inversion flag: without it the
    buffer fails its assertion, at every supported level. *)
Theorem xdr_buffer_missing_inversion (h : Heap) (m : HdlModule) (pin : Pin)
    (i_invert o_invert : option bool) :
  pin_wf h pin = true →
  pin_xdr pin ≤ 2 →
  (str_in "i" (pin_dir pin) = true ∧ i_invert = None) ∨
  (str_in "o" (pin_dir pin) = true ∧ o_invert = None) →
  _get_xdr_buffer m pin i_invert o_invert h = Raise AssertionError.
Proof.
  intros Hwf Hlevel Hmissing.
  assert (Hxdr : pin_xdr pin = 0 ∨ pin_xdr pin = 1 ∨ pin_xdr pin = 2) by lia.
  destruct (pin_wf_dir h pin Hwf) as [Hdir|[Hdir|[Hdir|Hdir]]];
    destruct Hxdr as [Hxdr|[Hxdr|Hxdr]];
    rewrite Hdir in Hmissing;
    destruct Hmissing as [[Hpresent ->]|[Hpresent ->]];
    try discriminate Hpresent;
    pin_fields Hwf Hxdr Hdir;
    unfold _get_xdr_buffer; rewrite Hxdr, Hdir; rewrite_fields;
    try (destruct i_invert as [[]|]); reflexivity.
Qed.

Lemma xdr_buffer_missing_inversion_witness :
  _get_xdr_buffer new_Module (example_Pin 2 "io" 1).1 (Some false) None
    (example_Pin 2 "io" 1).2 = Raise AssertionError.
Proof.
  apply (xdr_buffer_missing_inversion (example_Pin 2 "io" 1).2 new_Module
           (example_Pin 2 "io" 1).1 (Some false) None);
    [reflexivity | simpl; lia | right; split; reflexivity].
Defined.

(** ** Bounds of the per-bit register loop *)

Lemma for_each_app {S X : Type} (xs ys : list X) (body : X → S → Res S) (s : S) :
  for_each (xs ++ ys) body s = res_bind (for_each ys body) (for_each xs body s).
Proof.
  revert s. induction xs as [|x xs IH]; intros s; [done|].
  simpl. destruct (body x s); [apply IH|done].
Qed.

Lemma getitem_out_of_range v bit : len v ≤ bit → getitem v bit = Raise IndexError.
Proof.
  intros Hge. unfold getitem.
  destruct (Nat.ltb_spec bit (len v)); [lia|done].
Qed.



(** ** What the XDR buffer returns and adds *)

Lemma Forall_anonymous (insts : list HdlInstance) :
  Forall (λ sub : option string * HdlInstance, sub.1 = None)
         (map (pair None) insts).
Proof. induction insts; constructor; done. Qed.

(** X4: For every well-formed request of level 0, 1 or 2 whose present
    directions have their inversion flags, the buffer succeeds; it returns
    an input value exactly when "i" is in the direction and an output value
    exactly when "o" is, both [pin.width] bits wide, and a one-bit
    tristate-enable exactly for the directions "oe" and "io"; it leaves the
    clock domains alone; and the primitives it adds are anonymous, none at
    level 0 and otherwise one per bit of each data direction plus one for
    the enable. *)
Theorem xdr_buffer_result (h : Heap) (m : HdlModule) (pin : Pin)
    (i_invert o_invert : option bool) :
  pin_wf h pin = true →
  pin_xdr pin ≤ 2 →
  (str_in "i" (pin_dir pin) = true → is_Some i_invert) →
  (str_in "o" (pin_dir pin) = true → is_Some o_invert) →
  ∃ m' i o t h' new,
    _get_xdr_buffer m pin i_invert o_invert h = Ok ((m', (i, o, t)), h') ∧
    match i with
    | Some v => str_in "i" (pin_dir pin) = true ∧ len v = pin_width pin
    | None => str_in "i" (pin_dir pin) = false
    end ∧
    match o with
    | Some v => str_in "o" (pin_dir pin) = true ∧ len v = pin_width pin
    | None => str_in "o" (pin_dir pin) = false
    end ∧
    match t with
    | Some v => dir_oe_io (pin_dir pin) = true ∧ len v = 1
    | None => dir_oe_io (pin_dir pin) = false
    end ∧
    domains m' = domains m ∧
    submodules m' = submodules m ++ new ∧
    Forall (λ sub, sub.1 = None) new ∧
    length new =
      if (pin_xdr pin =? 0)%nat then 0
      else (if str_in "i" (pin_dir pin) then pin_width pin else 0)
           + (if str_in "o" (pin_dir pin) then pin_width pin else 0)
           + (if dir_oe_io (pin_dir pin) then 1 else 0).
Proof.
  intros Hwf Hlevel Hi Ho.
  assert (Hxdr : pin_xdr pin = 0 ∨ pin_xdr pin = 1 ∨ pin_xdr pin = 2) by lia.
  assert (Hflags :
    (pin_dir pin = "i" ∧ ∃ b, i_invert = Some b) ∨
    (pin_dir pin = "o" ∧ ∃ b, o_invert = Some b) ∨
    (pin_dir pin = "oe" ∧ ∃ b, o_invert = Some b) ∨
    (pin_dir pin = "io" ∧ ∃ b c, i_invert = Some b ∧ o_invert = Some c)).
  { destruct (pin_wf_dir h pin Hwf) as [Hd|[Hd|[Hd|Hd]]]; rewrite Hd in Hi, Ho.
    - left. split; [done|]. destruct Hi as [b ->]; [done|]. by exists b.
    - right; left. split; [done|]. destruct Ho as [b ->]; [done|]. by exists b.
    - right; right; left. split; [done|].
      destruct Ho as [b ->]; [done|]. by exists b.
    - right; right; right. split; [done|].
      destruct Hi as [b ->]; [done|]. destruct Ho as [c ->]; [done|].
      by exists b, c. }
  destruct Hflags as [[Hdir [b ->]]|[[Hdir [b ->]]|[[Hdir [b ->]]
                     |[Hdir (b & c & -> & ->)]]]];
    destruct Hxdr as [Hxdr|[Hxdr|Hxdr]]; pin_fields Hwf Hxdr Hdir.
  all: unfold _get_xdr_buffer; rewrite Hxdr, Hdir; rewrite_fields.
  all: destruct b; try destruct c; run_buffer; try solve_len.
  all: do 6 eexists; split; [reflexivity|].
  all: do 3 (split; [first [split; [reflexivity|solve_len] | reflexivity]|]).
  all: split; [reflexivity|].
  all: cbn [submodules add_submodules add_stmt]; rewrite <- ?app_assoc.
  all: split; [first [reflexivity | symmetry; apply app_nil_r]|].
  all: split;
    [rewrite ?Forall_app; repeat split;
     first [apply Forall_anonymous | apply Forall_nil_2]|].
  all: rewrite ?length_app, ?length_map, ?length_seq; unfold len; simpl;
    rewrite ?Hshape, ?Hshape0, ?Hshape1, ?Hshape2, ?Hshape3, ?Hshape4,
      ?Hshape5; simpl; lia.
Qed.

Lemma xdr_buffer_result_witness :
  ∃ m' i o t h' new,
    _get_xdr_buffer new_Module (example_Pin 4 "oe" 2).1 None (Some true)
      (example_Pin 4 "oe" 2).2 = Ok ((m', (i, o, t)), h') ∧
    submodules m' = new ∧ length new = 5.
Proof.
  destruct (xdr_buffer_result (example_Pin 4 "oe" 2).2 new_Module
              (example_Pin 4 "oe" 2).1 None (Some true))
    as (m' & i & o & t & h' & new & Hrun & _ & _ & _ & _ & Hsub & _ & Hlen);
    [reflexivity | simpl; lia | discriminate | by eexists |].
  exists m', i, o, t, h', new. split; [exact Hrun|].
  split; [exact Hsub | exact Hlen].
Defined.

(** ** Level 2: double data rate output *)

Lemma wrap_bit w z bit :
  bit < w →
  Z.testbit (wrap (unsigned w) z) (Z.of_nat bit) = Z.testbit z (Z.of_nat bit).
Proof.
  intros Hbit. rewrite wrap_unsigned. apply Z.mod_pow2_bits_low. lia.
Qed.

(** A signal assigned the negation of another of the same width carries,
    bit by bit, the complement of that signal. *)
Lemma inverted_bit env m y a w bit :
  comb_holds env m = true →
  ("comb", Assign (VSig y) (VNot (VSig a))) ∈ statements m →
  sig_shape y = unsigned w →
  sig_shape a = unsigned w →
  bit < w →
  eval env (VBit (VSig y) bit)
  = Z.b2z (negb (Z.testbit (sig_val env (sig_uid a)) (Z.of_nat bit))).
Proof.
  intros Hcomb Hin Hy Ha Hbit.
  pose proof (comb_holds_stmt env m _ _ Hcomb Hin) as Hstmt.
  simpl in Hstmt. simpl. rewrite Hstmt, Hy, Ha.
  rewrite !wrap_bit by done. by rewrite Z.lnot_spec by lia.
Qed.

Ltac find_stmt :=
  first [ apply list_elem_of_here
        | apply elem_of_app; right; apply list_elem_of_here
        | apply elem_of_app; left; find_stmt ].

(** X5: A level-2 output request of width W gets exactly W ODDR primitives, one
    per bit, with DDR_CLK_EDGE = SAME_EDGE, SRTYPE = ASYNC and INIT = 0,
    clocked by the output clock and driving bit k of the returned output
    signal.  D1 and D2 take bit k of the polarity-corrected [pin.o0] and
    [pin.o1]: the two signals themselves without inversion, and with
    inversion two signals assigned their negations in [m.d.comb], so that
    D1 and D2 carry the bits of [pin.o0] and [pin.o1] exclusive-or the
    flag. *)
Theorem xdr2_output_serializers (h : Heap) (m : HdlModule) (pin : Pin)
    (i_invert : option bool) (o_invert : bool) :
  pin_wf h pin = true →
  pin_xdr pin = 2 →
  str_in "o" (pin_dir pin) = true →
  (str_in "i" (pin_dir pin) = true → is_Some i_invert) →
  ∃ m' h' i o t d1 d2 o_clk o0 o1,
    _get_xdr_buffer m pin i_invert (Some o_invert) h
      = Ok ((m', (i, Some o, t)), h') ∧
    pin_o_clk pin = Some o_clk ∧
    pin_o0 pin = Some o0 ∧ pin_o1 pin = Some o1 ∧
    len o = pin_width pin ∧
    filter (λ sub, inst_type sub.2 = "ODDR") (submodules m')
      = filter (λ sub, inst_type sub.2 = "ODDR") (submodules m) ++
        map (pair None)
          (map (λ bit, ODDR (VSig o_clk) (VBit d1 bit) (VBit d2 bit) (VBit o bit))
               (seq 0 (pin_width pin))) ∧
    len d1 = pin_width pin ∧ len d2 = pin_width pin ∧
    count_type "ODDR" m' = count_type "ODDR" m + pin_width pin ∧
    (if o_invert
     then ∃ y0 y1, d1 = VSig y0 ∧ d2 = VSig y1 ∧
            next_uid h ≤ sig_uid y0 ∧ next_uid h ≤ sig_uid y1 ∧
            ("comb", Assign (VSig y0) (VNot (VSig o0))) ∈ statements m' ∧
            ("comb", Assign (VSig y1) (VNot (VSig o1))) ∈ statements m'
     else d1 = VSig o0 ∧ d2 = VSig o1) ∧
    (∀ env, comb_holds env m' = true →
       ∀ bit, bit < pin_width pin →
         eval env (VBit d1 bit)
         = Z.b2z (xorb o_invert
                    (Z.testbit (sig_val env (sig_uid o0)) (Z.of_nat bit))) ∧
         eval env (VBit d2 bit)
         = Z.b2z (xorb o_invert
                    (Z.testbit (sig_val env (sig_uid o1)) (Z.of_nat bit)))) ∧
    ∀ bit, bit < pin_width pin →
      let args :=
        inst_args (ODDR (VSig o_clk) (VBit d1 bit) (VBit d2 bit) (VBit o bit)) in
      p_ "DDR_CLK_EDGE" (PStr "SAME_EDGE") ∈ args ∧
      p_ "SRTYPE" (PStr "ASYNC") ∈ args ∧
      p_ "INIT" (PInt 0) ∈ args ∧
      find_input "C" args = Some (VSig o_clk) ∧
      find_input "D1" args = Some (VBit d1 bit) ∧
      find_input "D2" args = Some (VBit d2 bit) ∧
      find_output "Q" args = Some (VBit o bit).
Proof.
  intros Hwf Hxdr Ho Hi.
  assert (Hdir : pin_dir pin = "o" ∨ pin_dir pin = "oe" ∨
                 (pin_dir pin = "io" ∧ ∃ b, i_invert = Some b)).
  { destruct (pin_wf_dir h pin Hwf) as [Hd|[Hd|[Hd|Hd]]]; rewrite Hd in Hi, Ho.
    - discriminate Ho.
    - by left.
    - right; by left.
    - right; right. split; [done|]. destruct Hi as [b ->]; [done|]. by exists b. }
  assert (Hparams : ∀ clk a b q,
    let args := inst_args (ODDR clk a b q) in
    p_ "DDR_CLK_EDGE" (PStr "SAME_EDGE") ∈ args ∧
    p_ "SRTYPE" (PStr "ASYNC") ∈ args ∧
    p_ "INIT" (PInt 0) ∈ args ∧
    find_input "C" args = Some clk ∧ find_input "D1" args = Some a ∧
    find_input "D2" args = Some b ∧ find_output "Q" args = Some q).
  { intros clk a b q. simpl. repeat split; try reflexivity; repeat constructor. }
  destruct Hdir as [Hdir|[Hdir|[Hdir [i_inv ->]]]]; pin_fields Hwf Hxdr Hdir.
  all: unfold _get_xdr_buffer; rewrite Hxdr, Hdir; rewrite_fields.
  all: destruct o_invert; try destruct i_inv; run_buffer; try solve_len.
  all: do 10 eexists; split; [reflexivity|].
  all: do 3 (split; [reflexivity|]).
  all: split; [solve_len|].
  all: match goal with
       | |- ?A ∧ _ => assert (Hsub : A); [|split; [exact Hsub|]]
       end.
  all: try (simpl; unfold len; simpl; rewrite ?Hshape, ?Hshape0, ?Hshape1,
              ?Hshape2, ?Hshape3, ?Hshape4, ?Hshape5; simpl;
            rewrite ?list.filter_app;
            rewrite ?filter_type_none by done;
            rewrite filter_type_all by done;
            rewrite ?filter_type_none by done;
            rewrite ?app_nil_r; reflexivity).
  all: do 2 (split; [solve_len|]).
  all: split;
    [unfold count_type; rewrite Hsub, List.length_app, !List.length_map;
     by rewrite List.length_seq|].
  all: clear Hsub.
  all: match goal with
       | |- ?A ∧ _ =>
           assert (Hpol : A);
           [first [ by split
                  | do 2 eexists; do 2 (split; [reflexivity|]);
                    cbn [sig_uid statements add_stmt add_submodules];
                    rewrite ?Hshape, ?Hshape0, ?Hshape1, ?Hshape2, ?Hshape3,
                      ?Hshape4, ?Hshape5;
                    do 2 (split; [lia|]); split; find_stmt ]
           |split; [exact Hpol|]]
       end.
  all: split; [|intros bit _; apply Hparams].
  all: intros env Hcomb bit Hbit.
  all: try (destruct Hpol as (y0 & y1 & [= <-] & [= <-] & _ & _ & Hs0 & Hs1);
            split;
            [apply (inverted_bit env _ _ _ (pin_width pin) bit Hcomb Hs0)
            |apply (inverted_bit env _ _ _ (pin_width pin) bit Hcomb Hs1)];
            done).
  all: split; reflexivity.
Qed.

Lemma xdr2_output_serializers_witness :
  ∃ m' r h',
    _get_xdr_buffer new_Module (example_Pin 3 "o" 2).1 None (Some true)
      (example_Pin 3 "o" 2).2 = Ok ((m', r), h') ∧
    count_type "ODDR" m' = 3.
Proof.
  destruct (xdr2_output_serializers (example_Pin 3 "o" 2).2 new_Module
              (example_Pin 3 "o" 2).1 None true)
    as (m' & h' & i & o & t & _ & _ & _ & _ & _ & Hrun & _ & _ & _ & _ & _
        & _ & _ & Hcount & _);
    [reflexivity | reflexivity | reflexivity | discriminate |].
  exists m', (i, Some o, t), h'. split; [exact Hrun | exact Hcount].
Defined.

(** ** Pin-facing primitives, one per bit *)

Lemma anonymous_no_name (subs : list (option string * HdlInstance)) name :
  Forall (λ sub, sub.1 = None) subs → Some name ∉ subs.*1.
Proof.
  intros Hall Hin. apply list_elem_of_fmap in Hin as (sub & Hname & Hin).
  rewrite list.Forall_forall in Hall. specialize (Hall sub Hin). congruence.
Qed.

Lemma per_bit_ok (pin : Pin) (mk : nat → Res HdlInstance)
    (inst : nat → HdlInstance) (m : HdlModule) :
  (∀ bit, bit < pin_width pin → mk bit = Ok (inst bit)) →
  Forall (λ sub, sub.1 = None) (submodules m) →
  per_bit pin mk m = Ok (with_bits pin inst m).
Proof.
  intros Hmk Hanon. unfold per_bit, with_bits.
  apply (for_each_named (λ bit, pin_name pin +:+ "_" +:+ pretty bit) inst).
  - intros bit m' Hin. apply elem_of_seq in Hin. by rewrite Hmk by lia.
  - apply bit_names_NoDup.
  - intros bit _. by apply anonymous_no_name.
Qed.

Lemma per_bit_raise (pin : Pin) (mk : nat → Res HdlInstance)
    (inst : nat → HdlInstance) (m : HdlModule) (k : nat) (e : exn) :
  k < pin_width pin →
  (∀ bit, bit < k → mk bit = Ok (inst bit)) →
  mk k = Raise e →
  Forall (λ sub, sub.1 = None) (submodules m) →
  per_bit pin mk m = Raise e.
Proof.
  intros Hk Hmk Hraise Hanon. unfold per_bit.
  replace (pin_width pin) with (k + S (pin_width pin - S k)) by lia.
  rewrite seq_app, for_each_app.
  rewrite (for_each_named (λ bit, pin_name pin +:+ "_" +:+ pretty bit) inst).
  - cbn [seq for_each res_bind]. rewrite Nat.add_0_l, Hraise. reflexivity.
  - intros bit m' Hin. apply elem_of_seq in Hin. by rewrite Hmk by lia.
  - apply bit_names_NoDup.
  - intros bit _. by apply anonymous_no_name.
Qed.

Lemma check_feature_ok (pin : Pin) :
  pin_xdr pin ≤ 2 → _check_feature pin [0; 1; 2] = Ok tt.
Proof.
  intros Hlevel. unfold _check_feature. rewrite bool_decide_eq_true_2; [done|].
  assert (Hxdr : pin_xdr pin = 0 ∨ pin_xdr pin = 1 ∨ pin_xdr pin = 2) by lia.
  destruct Hxdr as [->|[->| ->]]; set_solver.
Qed.

(** The buffer run from an empty module, as the entry points do: what it
    returns, and that all its submodules are anonymous. *)
Lemma xdr_buffer_from_new (h : Heap) (pin : Pin) (i_invert o_invert : option bool) :
  pin_wf h pin = true →
  pin_xdr pin ≤ 2 →
  (str_in "i" (pin_dir pin) = true → is_Some i_invert) →
  (str_in "o" (pin_dir pin) = true → is_Some o_invert) →
  ∃ m0 i o t h',
    _get_xdr_buffer new_Module pin i_invert o_invert h
      = Ok ((m0, (i, o, t)), h') ∧
    match i with
    | Some v => str_in "i" (pin_dir pin) = true ∧ len v = pin_width pin
    | None => str_in "i" (pin_dir pin) = false
    end ∧
    match o with
    | Some v => str_in "o" (pin_dir pin) = true ∧ len v = pin_width pin
    | None => str_in "o" (pin_dir pin) = false
    end ∧
    match t with
    | Some v => dir_oe_io (pin_dir pin) = true ∧ len v = 1
    | None => dir_oe_io (pin_dir pin) = false
    end ∧
    Forall (λ sub, sub.1 = None) (submodules m0).
Proof.
  intros Hwf Hlevel Hi Ho.
  assert (Hxdr : pin_xdr pin = 0 ∨ pin_xdr pin = 1 ∨ pin_xdr pin = 2) by lia.
  assert (Hflags :
    (pin_dir pin = "i" ∧ ∃ b, i_invert = Some b) ∨
    (pin_dir pin = "o" ∧ ∃ b, o_invert = Some b) ∨
    (pin_dir pin = "oe" ∧ ∃ b, o_invert = Some b) ∨
    (pin_dir pin = "io" ∧ ∃ b c, i_invert = Some b ∧ o_invert = Some c)).
  { destruct (pin_wf_dir h pin Hwf) as [Hd|[Hd|[Hd|Hd]]]; rewrite Hd in Hi, Ho.
    - left. split; [done|]. destruct Hi as [b ->]; [done|]. by exists b.
    - right; left. split; [done|]. destruct Ho as [b ->]; [done|]. by exists b.
    - right; right; left. split; [done|].
      destruct Ho as [b ->]; [done|]. by exists b.
    - right; right; right. split; [done|].
      destruct Hi as [b ->]; [done|]. destruct Ho as [c ->]; [done|].
      by exists b, c. }
  destruct Hflags as [[Hdir [b ->]]|[[Hdir [b ->]]|[[Hdir [b ->]]
                     |[Hdir (b & c & -> & ->)]]]];
    destruct Hxdr as [Hxdr|[Hxdr|Hxdr]]; pin_fields Hwf Hxdr Hdir.
  all: unfold _get_xdr_buffer; rewrite Hxdr, Hdir; rewrite_fields.
  all: destruct b; try destruct c; run_buffer; try solve_len.
  all: do 5 eexists; split; [reflexivity|].
  all: do 3 (split; [first [split; [reflexivity|solve_len] | reflexivity]|]).
  all: cbn [submodules add_submodules add_stmt new_Module app].
  all: rewrite ?Forall_app; repeat split;
    first [apply Forall_anonymous | apply Forall_nil_2].
Qed.



(** X7: The entry points index the port bit by bit: a port narrower than the
    pin makes [get_input] raise [IndexError]. *)
Theorem get_input_narrow_port {Base Attrs : Type}
    (self : Xilinx7SeriesPlatform Base) (pin : Pin) (port : Port)
    (attrs : Attrs) (invert : bool) (h : Heap) :
  pin_wf h pin = true →
  pin_dir pin = "i" →
  pin_xdr pin ≤ 2 →
  len (VSig (port_io port)) < pin_width pin →
  get_input self pin port attrs invert h = Raise IndexError.
Proof.
  intros Hwf Hdir Hlevel Hport.
  destruct (xdr_buffer_from_new h pin (Some invert) None Hwf Hlevel)
    as (m0 & i & o & t & h' & Hrun & Hi & Ho & Ht & Hanon);
    [by eexists | by rewrite Hdir |].
  rewrite Hdir in Hi.
  destruct i as [i|]; [|discriminate Hi]. destruct Hi as [_ Hi].
  unfold get_input, mbind, m_mbind, m_bind, lift.
  rewrite check_feature_ok by done. rewrite Hrun.
  erewrite (per_bit_raise pin _
              (λ bit, IBUF (VBit (VSig (port_io port)) bit) (VBit i bit))
              m0 (len (VSig (port_io port))) IndexError); [done|done| | |done].
  - intros bit Hbit. unfold mbind, res_mbind, res_bind, subscript.
    rewrite !getitem_ok by lia. reflexivity.
  - unfold mbind, res_mbind, res_bind.
    by rewrite getitem_out_of_range.
Qed.

Lemma get_input_narrow_port_witness :
  get_input vivado_platform (example_Pin 2 "i" 0).1 narrow_Port tt false
    (example_Pin 2 "i" 0).2 = Raise IndexError.
Proof.
  apply (get_input_narrow_port vivado_platform (example_Pin 2 "i" 0).1
           narrow_Port tt false (example_Pin 2 "i" 0).2);
    [reflexivity | reflexivity | vm_compute; lia | vm_compute; lia].
Defined.

Ltac entry_point Hrun :=
  unfold mbind, m_mbind, m_bind, lift;
  rewrite check_feature_ok by done; rewrite Hrun;
  erewrite per_bit_ok; [reflexivity| |done];
  let bit := fresh "bit" in
  let Hbit := fresh "Hbit" in
  intros bit Hbit;
  unfold mbind, res_mbind, res_bind, subscript, cast, mret, res_mret;
  rewrite !getitem_ok by lia; reflexivity.







(** ** Output polarity and registered output *)

(** X11: At level 0 the Symbiflow branch of [get_output] drives the port with
    the value of [pin.o] whether or not the invert flag is set, while under
    Vivado every port bit is the bit of [pin.o] exclusive-or the flag. *)
Theorem output_polarity {Base : Type} (self : Xilinx7SeriesPlatform Base)
    (h : Heap) (pin : Pin) (port : Port) (invert : bool) :
  pin_wf h pin = true →
  pin_dir pin = "o" →
  pin_xdr pin = 0 →
  sig_shape (port_io port) = unsigned (pin_width pin) →
  ∃ o, pin_o pin = Some o ∧
    (toolchain self = "Symbiflow" →
       ∃ m h',
         get_output self pin port invert h = Ok (m, h') ∧
         ∀ env, comb_holds env m = true →
           (0 ≤ sig_val env (sig_uid o) < 2 ^ Z.of_nat (pin_width pin))%Z →
           sig_val env (sig_uid (port_io port)) = sig_val env (sig_uid o)) ∧
    (toolchain self = "Vivado" →
       ∃ m h',
         get_output self pin port invert h = Ok (m, h') ∧
         ∀ env, comb_holds env m = true → OBUF_holds env m = true →
           ∀ bit, bit < pin_width pin →
             Z.testbit (sig_val env (sig_uid (port_io port))) (Z.of_nat bit)
             = xorb invert (Z.testbit (sig_val env (sig_uid o)) (Z.of_nat bit))).
Proof.
  intros Hwf Hdir Hxdr Hport.
  pose proof Hwf as Hwf'. pin_fields Hwf' Hxdr Hdir.
  exists s. split; [done|]. split; intros Htc.
  - unfold get_output, _check_feature. rewrite Htc.
    unfold _get_xdr_buffer. rewrite Hxdr, Hdir. rewrite_fields.
    destruct invert; run_buffer.
    + do 2 eexists. split; [reflexivity|]. intros env Hcomb Hrange.
      pose proof (comb_holds_stmt env _ _ _ Hcomb
                    ltac:(apply list_elem_of_here)) as Hn.
      pose proof (comb_holds_stmt env _ _ _ Hcomb
                    ltac:(apply list_elem_of_further, list_elem_of_here)) as Hp.
      simpl in Hn, Hp. rewrite Hp, Hn, Hport, Hshape.
      rewrite !wrap_unsigned_idemp. by apply wrap_lnot_lnot.
    + do 2 eexists. split; [reflexivity|]. intros env Hcomb Hrange.
      pose proof (comb_holds_stmt env _ _ _ Hcomb
                    ltac:(apply list_elem_of_here)) as Hp.
      simpl in Hp. rewrite Hp, Hport. by apply wrap_unsigned_small.
  - unfold get_output, _check_feature. rewrite Htc.
    unfold _get_xdr_buffer. rewrite Hxdr, Hdir. rewrite_fields.
    destruct invert; run_buffer.
    + erewrite (for_each_named (λ bit, pin_name pin +:+ "_" +:+ pretty bit));
        [| intros bit m' Hin; apply elem_of_seq in Hin; simpl;
           rewrite !getitem_ok by solve_len; reflexivity
         | apply bit_names_NoDup
         | intros bit _; simpl; apply not_elem_of_nil].
      do 2 eexists. split; [reflexivity|].
      intros env Hcomb Hbuf bit Hbit.
        pose proof (comb_holds_stmt env _ _ _ Hcomb
                      ltac:(apply list_elem_of_here)) as Hn.
        pose proof (OBUF_holds_inst env _ _ _ _ Hbuf
                      ltac:(simpl; apply list_elem_of_fmap; exists bit;
                            split; [reflexivity | apply elem_of_seq; lia]))
          as Hb.
        simpl in Hn, Hb. apply Z.b2z_inj in Hb. rewrite Hb, Hn, Hshape.
        rewrite wrap_unsigned_idemp, wrap_lnot_bit by done.
        by destruct (Z.testbit (sig_val env (sig_uid s)) (Z.of_nat bit)).
    + erewrite (for_each_named (λ bit, pin_name pin +:+ "_" +:+ pretty bit));
        [| intros bit m' Hin; apply elem_of_seq in Hin; simpl;
           rewrite !getitem_ok by solve_len; reflexivity
         | apply bit_names_NoDup
         | intros bit _; simpl; apply not_elem_of_nil].
      do 2 eexists. split; [reflexivity|].
      intros env Hcomb Hbuf bit Hbit.
        pose proof (OBUF_holds_inst env _ _ _ _ Hbuf
                      ltac:(simpl; apply list_elem_of_fmap; exists bit;
                            split; [reflexivity | apply elem_of_seq; lia]))
          as Hb.
        simpl in Hb. apply Z.b2z_inj in Hb. rewrite Hb.
        by destruct (Z.testbit (sig_val env (sig_uid s)) (Z.of_nat bit)).
Qed.

Lemma output_polarity_witness :
  ∃ m h',
    get_output symbiflow_platform (example_Pin 2 "o" 0).1 example_Port false
      example_heap = Ok (m, h') ∧
    length (statements m) = 1.
Proof.
  destruct (output_polarity symbiflow_platform example_heap
              (example_Pin 2 "o" 0).1 example_Port false)
    as (o & _ & Hsymbiflow & _);
    [reflexivity | reflexivity | reflexivity | reflexivity |].
  destruct (Hsymbiflow eq_refl) as (m & h' & Hrun & _).
  exists m, h'. split; [exact Hrun|].
  vm_compute in Hrun. injection Hrun as <- _. reflexivity.
Defined.

Lemma filter_named_all (name : nat → string) (mk : nat → HdlInstance) ty
    (bits : list nat) :
  (∀ bit, inst_type (mk bit) = ty) →
  filter (λ sub : option string * HdlInstance, inst_type sub.2 = ty)
         ((λ bit, (Some (name bit), mk bit)) <$> bits)
  = (λ bit, (Some (name bit), mk bit)) <$> bits.
Proof.
  intros Hty. induction bits as [|b bits IH]; [done|].
  rewrite fmap_cons, filter_cons. simpl.
  destruct (decide _) as [|Hne]; [by rewrite IH|]. by destruct Hne.
Qed.

Lemma filter_named_none (name : nat → string) (mk : nat → HdlInstance) ty
    (bits : list nat) :
  (∀ bit, inst_type (mk bit) ≠ ty) →
  filter (λ sub : option string * HdlInstance, inst_type sub.2 = ty)
         ((λ bit, (Some (name bit), mk bit)) <$> bits)
  = [].
Proof.
  intros Hty. induction bits as [|b bits IH]; [done|].
  rewrite fmap_cons, filter_cons. simpl.
  destruct (decide _) as [He|]; [|done]. by destruct (Hty b).
Qed.



(** ** Synchronizers: edge cases, store and propagation *)

(** X13: With no stage at all both synchronizers fail on [flops[0]]. *)
Theorem synchronizers_need_a_stage (ff_sync : FFSynchronizer)
    (async_ff_sync : AsyncFFSynchronizer) (h : Heap) :
  (ff_stages ff_sync = 0 → get_ff_sync ff_sync h = Raise IndexError) ∧
  (aff_stages async_ff_sync = 0 →
   get_async_ff_sync async_ff_sync h = Raise IndexError).
Proof.
  split; intros Hstages.
  - unfold get_ff_sync. rewrite Hstages.
    by destruct (ff_max_input_delay ff_sync).
  - unfold get_async_ff_sync. rewrite Hstages.
    by destruct (aff_max_input_delay async_ff_sync).
Qed.

Lemma synchronizers_need_a_stage_witness :
  get_ff_sync {| ff_i := VSig sync_i; ff_o := sync_o; ff_reset := 0;
                 ff_reset_less := false; ff_stages := 0;
                 ff_max_input_delay := None; ff_o_domain := "sync" |}
    sync_heap = Raise IndexError.
Proof.
  apply (proj1 (synchronizers_need_a_stage
                  {| ff_i := VSig sync_i; ff_o := sync_o; ff_reset := 0;
                     ff_reset_less := false; ff_stages := 0;
                     ff_max_input_delay := None; ff_o_domain := "sync" |}
                  example_AsyncFFSynchronizer sync_heap)).
  reflexivity.
Defined.

Lemma timing_exception_frame (flops : list Signal) (flop0 : Signal)
    (max_input_delay : option float) (h1 : Heap) :
  flops !! 0 = Some flop0 →
  ∃ h',
    set_timing_exception flops max_input_delay h1 = Ok (tt, h') ∧
    next_uid h' = next_uid h1 ∧
    ∀ u, u ≠ sig_uid flop0 → sig_attrs h' !! u = sig_attrs h1 !! u.
Proof.
  intros Hflop0.
  destruct max_input_delay as [delay|];
    unfold set_timing_exception, mbind, m_mbind, m_bind, lift, list_getitem;
    rewrite Hflop0; unfold set_attr; simpl;
    (eexists; split; [reflexivity|]); simpl; (split; [done|]);
    intros u Hu; by rewrite lookup_insert_ne.
Qed.

Lemma ff_sync_run (ff_sync : FFSynchronizer) (h : Heap) :
  0 < ff_stages ff_sync →
  ∃ h' last,
    let flops := stage_signals (shape (ff_i ff_sync)) (ff_reset ff_sync)
                   (ff_reset_less ff_sync) (next_uid h) (ff_stages ff_sync) in
    list.last flops = Some last ∧
    get_ff_sync ff_sync h =
      Ok ({| submodules := []; domains := [];
             statements :=
               chain_stmts (ff_o_domain ff_sync) (ff_i ff_sync) flops ++
               [("comb", Assign (VSig (ff_o ff_sync)) (VSig last))] |},
          h') ∧
    next_uid h' = next_uid h + ff_stages ff_sync ∧
    ∀ u, u < next_uid h → sig_attrs h' !! u = sig_attrs h !! u.
Proof.
  intros Hstages.
  destruct (ff_stages ff_sync) as [|stages] eqn:HS; [lia|].
  destruct (comprehension_stages (shape (ff_i ff_sync)) (ff_reset ff_sync)
              (ff_reset_less ff_sync) {[ "ASYNC_REG" := AttrStr "TRUE" ]}
              (S stages) 0 h) as (h1 & Hflops & Hnext & Hattrs).
  set (flops := (λ k, stage_signal (shape (ff_i ff_sync)) (ff_reset ff_sync)
                        (ff_reset_less ff_sync) (next_uid h + k) (0 + k))
                <$> seq 0 (S stages)) in *.
  destruct (timing_exception_frame flops _ (ff_max_input_delay ff_sync) h1
              (stage_signals_lookup_lt _ _ _ _ 0 (S stages) 0 ltac:(lia)))
    as (h' & Hexc & Hnext' & Hframe).
  exists h', (stage_signal (shape (ff_i ff_sync)) (ff_reset ff_sync)
                (ff_reset_less ff_sync) (next_uid h + stages) stages).
  split; [apply (stage_signals_last _ _ _ _ 0)|].
  split; [|split].
  - unfold get_ff_sync, mbind, m_mbind, m_bind. rewrite HS, Hflops.
    fold flops. rewrite Hexc. unfold lift, list_getitem_last.
    unfold flops. rewrite stage_signals_last.
    unfold mret, m_mret, m_ret. do 2 f_equal.
    fold flops.
    pose proof (chain_statements (ff_o_domain ff_sync) (ff_i ff_sync) flops
                  new_Module) as (Hst & Hsub & Hdom).
    unfold add_stmt. rewrite Hst, Hsub, Hdom. reflexivity.
  - rewrite Hnext', Hnext. done.
  - intros u Hu. rewrite Hframe by (simpl; lia).
    rewrite Hattrs. rewrite bool_decide_eq_false_2; [done|lia].
Qed.

(** X14: [get_ff_sync] builds a module with no primitive and no clock domain of
    its own, allocates exactly as many signals as there are stages, and
    leaves the attributes of every signal allocated before untouched. *)
Theorem ff_sync_store (ff_sync : FFSynchronizer) (h : Heap) :
  0 < ff_stages ff_sync →
  ∃ m h',
    get_ff_sync ff_sync h = Ok (m, h') ∧
    submodules m = [] ∧ domains m = [] ∧
    next_uid h' = next_uid h + ff_stages ff_sync ∧
    ∀ s, sig_uid s < next_uid h → attrs_of h' s = attrs_of h s.
Proof.
  intros Hstages.
  destruct (ff_sync_run ff_sync h Hstages)
    as (h' & last & _ & Hrun & Hnext & Hframe).
  eexists _, h'. split; [exact Hrun|]. do 3 (split; [done|]).
  intros s Hs. unfold attrs_of. by rewrite Hframe.
Qed.

Lemma ff_sync_store_witness :
  ∃ m h',
    get_ff_sync example_FFSynchronizer sync_heap = Ok (m, h') ∧
    next_uid h' = 5.
Proof.
  destruct (ff_sync_store example_FFSynchronizer sync_heap)
    as (m & h' & Hrun & _ & _ & Hnext & _); [simpl; lia|].
  exists m, h'. split; [exact Hrun | exact Hnext].
Defined.

Lemma wrap_idemp sh z : wrap sh (wrap sh z) = wrap sh z.
Proof.
  unfold wrap. destruct (signed sh).
  - rewrite Z.sub_add, Z.mod_mod; [done|]. lia.
  - apply Z.mod_mod. lia.
Qed.

Lemma tick_frame domain m first flops env u :
  clocked domain m = chain_pairs first flops →
  u ∉ sig_uid <$> flops →
  sig_val (tick domain m env) u = sig_val env u.
Proof.
  intros Hclocked Hu. unfold tick. simpl. rewrite Hclocked.
  apply (foldl_updates_notin _ (λ a, wrap (sig_shape a.1) (eval env a.2))).
  - done.
  - by rewrite chain_pairs_fst.
Qed.

Lemma ff_sync_clocked (ff_sync : FFSynchronizer) flops last :
  ff_o_domain ff_sync ≠ "comb" →
  clocked (ff_o_domain ff_sync)
    {| submodules := []; domains := [];
       statements :=
         chain_stmts (ff_o_domain ff_sync) (ff_i ff_sync) flops ++
         [("comb", Assign (VSig (ff_o ff_sync)) (VSig last))] |}
  = chain_pairs (ff_i ff_sync) flops.
Proof.
  intros Hdomain. unfold clocked. cbn [statements].
  rewrite flat_map_app, clocked_chain. simpl.
  rewrite bool_decide_eq_false_2 by done. apply app_nil_r.
Qed.

(** X15: With the source signal held at a value, after k clock edges of the
    target domain the first k stages of the chain made by [get_ff_sync]
    hold that value (truncated to the signal's shape); after as many edges
    as there are stages so does the last stage, which drives the output. *)
Theorem ff_sync_propagates (ff_sync : FFSynchronizer) (src : Signal) (h : Heap) :
  0 < ff_stages ff_sync →
  ff_i ff_sync = VSig src →
  sig_uid src < next_uid h →
  ff_o_domain ff_sync ≠ "comb" →
  ∃ m h' flops last,
    get_ff_sync ff_sync h = Ok (m, h') ∧
    length flops = ff_stages ff_sync ∧
    list.last flops = Some last ∧
    ("comb", Assign (VSig (ff_o ff_sync)) (VSig last)) ∈ statements m ∧
    (∀ env k j flop, flops !! j = Some flop → j < k →
       sig_val (Nat.iter k (tick (ff_o_domain ff_sync) m) env) (sig_uid flop)
       = wrap (sig_shape src) (sig_val env (sig_uid src))) ∧
    ∀ env k, ff_stages ff_sync ≤ k →
      sig_val (Nat.iter k (tick (ff_o_domain ff_sync) m) env) (sig_uid last)
      = wrap (sig_shape src) (sig_val env (sig_uid src)).
Proof.
  intros Hstages Hsrc Huid Hdomain.
  destruct (ff_sync_run ff_sync h Hstages)
    as (h' & last & Hlast & Hrun & _ & _).
  set (flops := stage_signals (shape (ff_i ff_sync)) (ff_reset ff_sync)
                  (ff_reset_less ff_sync) (next_uid h) (ff_stages ff_sync)) in *.
  match type of Hrun with _ = Ok (?m0, _) => set (m := m0) in * end.
  pose proof (ff_sync_clocked ff_sync flops last Hdomain) as Hclocked.
  fold m in Hclocked.
  assert (Hnodup : NoDup (sig_uid <$> flops)).
  { unfold flops. rewrite stage_signals_uids. apply NoDup_seq. }
  assert (Hsrc_frame : ∀ env k,
    sig_val (Nat.iter k (tick (ff_o_domain ff_sync) m) env) (sig_uid src)
    = sig_val env (sig_uid src)).
  { intros env k. induction k as [|k IH]; [done|].
    rewrite Nat.iter_succ.
    rewrite (tick_frame _ _ _ _ _ _ Hclocked); [done|].
    unfold flops. rewrite stage_signals_uids, elem_of_seq. lia. }
  assert (Hdyn : ∀ env k j flop, flops !! j = Some flop → j < k →
    sig_val (Nat.iter k (tick (ff_o_domain ff_sync) m) env) (sig_uid flop)
    = wrap (sig_shape src) (sig_val env (sig_uid src))).
  { intros env k. induction k as [|k IH]; intros j flop Hflop Hj; [lia|].
    rewrite Nat.iter_succ.
    set (env_k := Nat.iter k (tick (ff_o_domain ff_sync) m) env) in *.
    assert (Hshape : sig_shape flop = sig_shape src).
    { unfold flops in Hflop.
      apply lookup_lt_Some in Hflop as Hlt.
      rewrite stage_signals_length in Hlt.
      rewrite stage_signals_lookup_k in Hflop by done.
      injection Hflop as <-. simpl. by rewrite Hsrc. }
    destruct j as [|j].
    - pose proof (chain_tick _ m _ flops env_k 0 _ Hclocked Hnodup
                    (chain_pairs_lookup_0 _ _ _ Hflop)) as Htick.
      cbn [fst snd] in Htick. rewrite Htick, Hshape, Hsrc.
      cbn [eval]. unfold env_k. by rewrite Hsrc_frame.
    - assert (Hprev : ∃ prev, flops !! j = Some prev).
      { apply lookup_lt_is_Some. apply lookup_lt_Some in Hflop. lia. }
      destruct Hprev as [prev Hprev].
      pose proof (chain_tick _ m _ flops env_k (S j) _ Hclocked Hnodup
                    (chain_pairs_lookup_S _ _ _ _ _ Hprev Hflop)) as Htick.
      cbn [fst snd eval] in Htick. rewrite Htick, Hshape.
      rewrite (IH j prev Hprev) by lia. apply wrap_idemp. }
  exists m, h', flops, last. split; [exact Hrun|].
  split; [apply stage_signals_length|]. split; [exact Hlast|].
  split.
  { unfold m. cbn [statements]. apply elem_of_app. right.
    apply list_elem_of_here. }
  split; [exact Hdyn|].
  intros env k Hk.
  destruct (ff_stages ff_sync) as [|stages] eqn:HS; [lia|].
  apply (Hdyn env k stages); [|lia].
  unfold flops. rewrite stage_signals_lookup_k by lia.
  rewrite <- Hlast. symmetry. apply (stage_signals_last _ _ _ _ 0).
Qed.

Lemma ff_sync_propagates_witness :
  ∃ m h' last,
    get_ff_sync example_FFSynchronizer sync_heap = Ok (m, h') ∧
    ∀ env,
      sig_val (Nat.iter 3 (tick "sync" m) env) (sig_uid last)
      = wrap (unsigned 1) (sig_val env 0).
Proof.
  destruct (ff_sync_propagates example_FFSynchronizer sync_i sync_heap)
    as (m & h' & flops & last & Hrun & _ & _ & _ & _ & Hout);
    [simpl; lia | reflexivity | simpl; lia | discriminate |].
  exists m, h', last. split; [exact Hrun|].
  intros env. apply (Hout env 3). simpl. lia.
Defined.

(** ** The store and the statements around the XDR buffer *)

(** X16: The buffer only allocates: the attributes of every signal that existed
    before the call are what they were, and the counter never goes back.
    With both inversion flags clear it adds no statement to the module. *)
Theorem xdr_buffer_store (h : Heap) (m : HdlModule) (pin : Pin)
    (i_invert o_invert : option bool) :
  pin_wf h pin = true →
  pin_xdr pin ≤ 2 →
  (str_in "i" (pin_dir pin) = true → is_Some i_invert) →
  (str_in "o" (pin_dir pin) = true → is_Some o_invert) →
  ∃ m' r h',
    _get_xdr_buffer m pin i_invert o_invert h = Ok ((m', r), h') ∧
    next_uid h ≤ next_uid h' ∧
    (∀ s, sig_uid s < next_uid h → attrs_of h' s = attrs_of h s) ∧
    (i_invert ≠ Some true → o_invert ≠ Some true →
     statements m' = statements m).
Proof.
  intros Hwf Hlevel Hi Ho.
  assert (Hxdr : pin_xdr pin = 0 ∨ pin_xdr pin = 1 ∨ pin_xdr pin = 2) by lia.
  assert (Hflags :
    (pin_dir pin = "i" ∧ ∃ b, i_invert = Some b) ∨
    (pin_dir pin = "o" ∧ ∃ b, o_invert = Some b) ∨
    (pin_dir pin = "oe" ∧ ∃ b, o_invert = Some b) ∨
    (pin_dir pin = "io" ∧ ∃ b c, i_invert = Some b ∧ o_invert = Some c)).
  { destruct (pin_wf_dir h pin Hwf) as [Hd|[Hd|[Hd|Hd]]]; rewrite Hd in Hi, Ho.
    - left. split; [done|]. destruct Hi as [b ->]; [done|]. by exists b.
    - right; left. split; [done|]. destruct Ho as [b ->]; [done|]. by exists b.
    - right; right; left. split; [done|].
      destruct Ho as [b ->]; [done|]. by exists b.
    - right; right; right. split; [done|].
      destruct Hi as [b ->]; [done|]. destruct Ho as [c ->]; [done|].
      by exists b, c. }
  destruct Hflags as [[Hdir [b ->]]|[[Hdir [b ->]]|[[Hdir [b ->]]
                     |[Hdir (b & c & -> & ->)]]]];
    destruct Hxdr as [Hxdr|[Hxdr|Hxdr]]; pin_fields Hwf Hxdr Hdir.
  all: unfold _get_xdr_buffer; rewrite Hxdr, Hdir; rewrite_fields.
  all: destruct b; try destruct c; run_buffer; try solve_len.
  all: do 3 eexists; split; [reflexivity|].
  all: cbn [next_uid]; split; [lia|].
  all: split;
    [intros sig Hsig; unfold attrs_of; cbn [sig_attrs];
     by rewrite ?lookup_insert_ne by lia|].
  all: intros Hni Hno; try done; try (by destruct Hni); try (by destruct Hno).
Qed.

Lemma xdr_buffer_store_witness :
  ∃ m' r h',
    _get_xdr_buffer new_Module (example_Pin 2 "io" 1).1 (Some false)
      (Some false) (example_Pin 2 "io" 1).2 = Ok ((m', r), h') ∧
    statements m' = [].
Proof.
  destruct (xdr_buffer_store (example_Pin 2 "io" 1).2 new_Module
              (example_Pin 2 "io" 1).1 (Some false) (Some false))
    as (m' & r & h' & Hrun & _ & _ & Hst);
    [reflexivity | vm_compute; lia | by eexists | by eexists |].
  exists m', r, h'. split; [exact Hrun|]. apply Hst; discriminate.
Defined.

(** ** Profile tables and templates *)

(** X17: A platform object whose toolchain is neither of the two names has no
    tables: each of the three properties fails its final assertion. *)
Theorem profile_tables_undefined {Base : Type}
    (build_script_templates : gmap string file_template)
    (self : Xilinx7SeriesPlatform Base) :
  toolchain self ≠ "Vivado" →
  toolchain self ≠ "Symbiflow" →
  required_tools self = Raise AssertionError ∧
  file_templates build_script_templates self = Raise AssertionError ∧
  command_templates self = Raise AssertionError.
Proof.
  intros Hv Hs. unfold required_tools, file_templates, command_templates.
  by rewrite !bool_decide_eq_false_2 by done.
Qed.

Lemma profile_tables_undefined_witness :
  required_tools {| base := tt; toolchain := "ISE" |} = Raise AssertionError.
Proof.
  apply (profile_tables_undefined ∅ {| base := tt; toolchain := "ISE" |});
    discriminate.
Defined.

(** X18: The file templates of a profile are the inherited build-script
    templates with the profile's own entries written over them: Vivado
    replaces an inherited [build_{{name}}.sh], Symbiflow keeps it; both
    emit the same Verilog files; only Vivado has a Tcl script and only
    Symbiflow has [.pcf] and [.sdc] files of its own; and every other
    inherited entry is passed on unchanged. *)
Theorem file_templates_inherited
    (build_script_templates : gmap string file_template) (key : string) :
  _vivado_file_templates build_script_templates !! "build_{{name}}.sh"
    = Some vivado_build_sh ∧
  _symbiflow_file_templates build_script_templates !! "build_{{name}}.sh"
    = build_script_templates !! "build_{{name}}.sh" ∧
  _vivado_file_templates build_script_templates !! "{{name}}.v"
    = _symbiflow_file_templates build_script_templates !! "{{name}}.v" ∧
  _vivado_file_templates build_script_templates !! "{{name}}.debug.v"
    = _symbiflow_file_templates build_script_templates !! "{{name}}.debug.v" ∧
  _vivado_file_templates build_script_templates !! "{{name}}.tcl"
    = Some vivado_tcl ∧
  _symbiflow_file_templates build_script_templates !! "{{name}}.tcl"
    = build_script_templates !! "{{name}}.tcl" ∧
  _symbiflow_file_templates build_script_templates !! "{{name}}.pcf"
    = Some symbiflow_pcf ∧
  _symbiflow_file_templates build_script_templates !! "{{name}}.sdc"
    = Some symbiflow_sdc ∧
  (key ∉ ["build_{{name}}.sh"; "{{name}}.v"; "{{name}}.debug.v";
          "{{name}}.tcl"; "{{name}}.xdc"] →
   _vivado_file_templates build_script_templates !! key
     = build_script_templates !! key) ∧
  (key ∉ ["{{name}}.v"; "{{name}}.debug.v"; "{{name}}.pcf"; "{{name}}.xdc";
          "{{name}}.sdc"] →
   _symbiflow_file_templates build_script_templates !! key
     = build_script_templates !! key).
Proof.
  unfold _vivado_file_templates, _symbiflow_file_templates.
  repeat split; try (by simplify_map_eq).
  - intros Hkey. rewrite !not_elem_of_cons in Hkey.
    destruct Hkey as (? & ? & ? & ? & ? & _). by simplify_map_eq.
  - intros Hkey. rewrite !not_elem_of_cons in Hkey.
    destruct Hkey as (? & ? & ? & ? & ? & _). by simplify_map_eq.
Qed.

(** X19: A clock fact of frequency zero ends the rendering of the clock loop
    of the Vivado [{{name}}.xdc] in [ZeroDivisionError]; the loop of the
    Symbiflow [{{name}}.sdc] ends so only for such a fact without a port,
    since it divides inside [{% if port_signal is none %}].  Without such
    a fact the loops render one line per fact, respectively one line per
    fact without a port. *)
Theorem clock_zero_frequency (constraints : list clock_fact) :
  ((∃ net port f, (net, port, f) ∈ constraints ∧ (f =? 0)%float = true) →
   vivado_xdc_clocks constraints = Raise ZeroDivisionError) ∧
  ((∀ net port f, (net, port, f) ∈ constraints → (f =? 0)%float = false) →
   ∃ lines, vivado_xdc_clocks constraints = Ok lines ∧
            length lines = length constraints) ∧
  ((∃ net f, (net, None, f) ∈ constraints ∧ (f =? 0)%float = true) →
   symbiflow_sdc_clocks constraints = Raise ZeroDivisionError) ∧
  ((∀ net f, (net, None, f) ∈ constraints → (f =? 0)%float = false) →
   ∃ lines, symbiflow_sdc_clocks constraints = Ok lines ∧
            length lines
            = length (filter (λ fact : clock_fact, fact.1.2 = None)
                             constraints)).
Proof.
  split; [|split; [|split]].
  - intros (net & port & f & Hin & Hf).
    apply for_clock_constraints_raise.
    + intros [[n p] f'] e' _. unfold vivado_create_clock, period.
      destruct p, (f' =? 0)%float; cbn; unfold mret, res_mret; congruence.
    + exists (net, port, f). split; [done|].
      unfold vivado_create_clock. destruct port; by rewrite (period_zero f Hf).
  - intros Hfreq. eexists. split; [by apply vivado_xdc_clocks_ok|].
    by rewrite length_map.
  - intros (net & f & Hin & Hf).
    apply for_clock_constraints_raise.
    + intros [[n p] f'] e' _. unfold symbiflow_create_clock, period.
      destruct p, (f' =? 0)%float; cbn; unfold mret, res_mret; congruence.
    + exists (net, None, f). split; [done|].
      unfold symbiflow_create_clock. by rewrite (period_zero f Hf).
  - intros Hfreq. eexists. split; [by apply symbiflow_sdc_clocks_ok|].
    clear Hfreq. induction constraints as [|[[n p] f] cs IH]; [done|].
    cbn [flat_map]. rewrite length_app, IH. rewrite filter_cons.
    destruct p; simpl; reflexivity.
Qed.

(** X20: With no zero frequency, under Vivado the line of a fact is named
    after the port when the fact has one and after the net otherwise, and
    is applied to that port or to that net; the lines of the Symbiflow
    [.sdc] carry no name and are applied to the bare net name. *)
Theorem clock_line_names (constraints : list clock_fact) :
  (∀ net port f, (net, port, f) ∈ constraints → (f =? 0)%float = false) →
  (∃ lines, vivado_xdc_clocks constraints = Ok lines ∧
     ∀ k net port f, constraints !! k = Some (net, port, f) →
       ∃ line, lines !! k = Some line ∧
         cc_name line = Some (sig_name (default net port)) ∧
         cc_target line = match port with
                          | Some p => get_ports (sig_name p)
                          | None => get_nets net
                          end) ∧
  (∃ lines, symbiflow_sdc_clocks constraints = Ok lines ∧
     ∀ line, line ∈ lines →
       cc_name line = None ∧
       ∃ net f, (net, None, f) ∈ constraints ∧
                cc_target line = net_name (sig_name net)).
Proof.
  intros Hfreq. split.
  - eexists. split; [by apply vivado_xdc_clocks_ok|].
    intros k net port f Hk. eexists. split.
    { rewrite list_lookup_fmap. unfold clock_fact in *. rewrite Hk.
      reflexivity. }
    done.
  - eexists. split.
    { apply symbiflow_sdc_clocks_ok. intros net f. apply Hfreq. }
    intros line Hline.
    apply symbiflow_lines_elem in Hline as (net & f & Hin & ->).
    split; [done|]. by exists net, f.
Qed.

Lemma clock_line_names_witness :
  ∃ lines line,
    vivado_xdc_clocks [(clk_net, Some clk_port, 100000000%float);
                       (clk_net, None, 50000000%float)] = Ok lines ∧
    lines !! 1 = Some line ∧
    cc_name line = Some (sig_name clk_net) ∧
    cc_target line = get_nets clk_net.
Proof.
  destruct (clock_line_names [(clk_net, Some clk_port, 100000000%float);
                              (clk_net, None, 50000000%float)])
    as [(lines & Hrun & Hlines) _].
  { intros net port f Hin.
    repeat (apply elem_of_cons in Hin as [[= -> -> ->]|Hin]; [reflexivity|]).
    by apply elem_of_nil in Hin. }
  destruct (Hlines 1 clk_net None 50000000%float eq_refl)
    as (line & Hline & Hname & Htarget).
  exists lines, line. split; [exact Hrun|]. split; [exact Hline|].
  split; [exact Hname | exact Htarget].
Defined.
